(** * Lead qualification service: the classifier and the POST /lead handler

    A shallow embedding of [src/server.js]: the keyword classifier
    [classifyLead], the helpers the request handler relies on, and the
    handler of POST /lead itself, followed by the properties of the
    specification that were checked against them. *)

From Stdlib Require Import String Ascii List NArith ZArith Bool Lia.
From Stdlib Require Import DecimalString.
Import ListNotations.

Local Open Scope Z_scope.
Local Open Scope list_scope.

(** ** JavaScript strings

    A JavaScript string is a finite sequence of UTF-16 code units.  String
    literals of the source are all ASCII and are written [lit "..."]. *)

Definition codeunit := N.
Definition jsstring := list codeunit.

Definition lit (s : string) : jsstring :=
  map N_of_ascii (list_ascii_of_string s).

Definition unit_eqb (a b : codeunit) : bool := N.eqb a b.

Fixpoint jsstring_eqb (a b : jsstring) : bool :=
  match a, b with
  | [], [] => true
  | x :: a', y :: b' => unit_eqb x y && jsstring_eqb a' b'
  | _, _ => false
  end.

(** [startsWith s k]: [k] is a prefix of [s]. *)
Fixpoint startsWith (s k : jsstring) {struct k} : bool :=
  match k, s with
  | [], _ => true
  | _ :: _, [] => false
  | c :: k', d :: s' => unit_eqb c d && startsWith s' k'
  end.

(** [String.prototype.includes]: [k] occurs somewhere in [s] as a run of
    consecutive code units.  The empty string occurs in every string. *)
Fixpoint includes (s k : jsstring) : bool :=
  startsWith s k ||
  match s with
  | [] => false
  | _ :: s' => includes s' k
  end.

(** Number of positions of [s] at which an occurrence of [k] starts. *)
Fixpoint occurrences (s k : jsstring) : nat :=
  ((if startsWith s k then 1 else 0) +
   match s with
   | [] => 0
   | _ :: s' => occurrences s' k
   end)%nat.

(** The relation [includes] decides: [k] is a substring of [s]. *)
Definition Substring (k s : jsstring) : Prop :=
  exists pre post, s = pre ++ k ++ post.

(** White space and line terminators, the code units that
    [String.prototype.trim] strips. *)
Definition isWhiteSpace (c : codeunit) : bool :=
  ((9 <=? c) && (c <=? 13) || (c =? 32) || (c =? 160) || (c =? 5760)
   || ((8192 <=? c) && (c <=? 8202)) || (c =? 8232) || (c =? 8233)
   || (c =? 8239) || (c =? 8287) || (c =? 12288) || (c =? 65279))%N.

Fixpoint trimStart (s : jsstring) : jsstring :=
  match s with
  | [] => []
  | c :: s' => if isWhiteSpace c then trimStart s' else s
  end.

Definition trimEnd (s : jsstring) : jsstring := rev (trimStart (rev s)).

Definition trim (s : jsstring) : jsstring := trimEnd (trimStart s).

(** [String.prototype.toLowerCase] on the Basic Latin and Latin-1
    Supplement blocks: A-Z and the accented capitals U+00C0..U+00DE
    (without the multiplication sign U+00D7) move up by 32; every other
    code unit is kept.  The case table of the remaining blocks is not part
    of the repository; properties that quantify over all messages are
    therefore stated for an arbitrary lower-casing function, and this one
    is used where a concrete message is evaluated. *)
Definition lowerUnit (c : codeunit) : codeunit :=
  (if (65 <=? c) && (c <=? 90) then c + 32
   else if (192 <=? c) && (c <=? 222) && negb (c =? 215) then c + 32
   else c)%N.

Definition toLowerCaseLatin1 (s : jsstring) : jsstring := map lowerUnit s.

(** ** JavaScript values reaching the service

    The values a JSON body field or a function argument can hold, as far as
    the code distinguishes them: absent, [null], booleans, integral numbers
    (of a size that [String] prints in plain decimal digits) and strings.
    Arrays, objects and fractional numbers are left out. *)
Inductive jsval : Type :=
| JUndefined
| JNull
| JBool (b : bool)
| JNum (z : Z)
| JStr (s : jsstring).

(** Decimal rendering of an integral number, as in [String(n)] and in a
    template literal. *)
Definition numberToString (z : Z) : jsstring :=
  lit (NilZero.string_of_int (Z.to_int z)).

(** [String(v)]. *)
Definition String_ (v : jsval) : jsstring :=
  match v with
  | JUndefined => lit "undefined"
  | JNull => lit "null"
  | JBool true => lit "true"
  | JBool false => lit "false"
  | JNum z => numberToString z
  | JStr s => s
  end.

(** Truthiness, as tested by [||], [!] and [if]. *)
Definition truthy (v : jsval) : bool :=
  match v with
  | JUndefined | JNull => false
  | JBool b => b
  | JNum z => negb (z =? 0)
  | JStr s => match s with [] => false | _ => true end
  end.

(** [v || d]. *)
Definition orElse (v d : jsval) : jsval := if truthy v then v else d.

(** A parameter with a default value: the default replaces [undefined]
    only. *)
Definition withDefault (v d : jsval) : jsval :=
  match v with
  | JUndefined => d
  | _ => v
  end.

(** ** The classifier *)

Record SignalRule : Type := mkRule {
  key : jsstring;
  points : Z;
  reason : jsstring
}.

Definition rule (k : string) (p : Z) (r : string) : SignalRule :=
  mkRule (lit k) p (lit r).

Inductive Label : Type := HIGH | LOW.

Definition labelString (l : Label) : jsstring :=
  match l with
  | HIGH => lit "HIGH"
  | LOW => lit "LOW"
  end.

Record Scores : Type := mkScores {
  highScore : Z;
  lowScore : Z;
  netScore : Z
}.

Record Reasons : Type := mkReasons {
  high : list jsstring;
  low : list jsstring
}.

Record ClassificationResult : Type := mkResult {
  label : Label;
  scores : Scores;
  reasons : Reasons
}.

Definition highSignals : list SignalRule :=
  [ rule "asap" 3 "Urgent timeline";
    rule "next month" 3 "Near-term intent";
    rule "starting" 2 "Start date mentioned";
    rule "within" 2 "Defined timeline window";
    rule "by" 1 "Deadline mentioned";
    rule "premium" 2 "Premium service language";
    rule "proposal" 2 "Requesting a proposal";
    rule "quote" 2 "Requesting a quote";
    rule "budget" 2 "Budget mentioned";
    rule "scope" 2 "Scope mentioned";
    rule "requirements" 2 "Requirements mentioned";
    rule "deliverables" 2 "Deliverables mentioned";
    rule "contract" 2 "Contract language";
    rule "retainer" 2 "Retainer language";
    rule "call" 1 "Wants to discuss next steps";
    rule "meeting" 1 "Wants to discuss next steps" ].

Definition lowSignals : list SignalRule :=
  [ rule "just curious" 4 "Low intent language";
    rule "maybe later" 3 "Uncertain timeline";
    rule "not sure" 3 "Uncertain intent";
    rule "whenever" 2 "No urgency";
    rule "someday" 2 "No timeline";
    rule "someone nice" 2 "Vague request language";
    rule "anything" 2 "Vague request language";
    rule "free" 4 "Low budget / free request";
    rule "cheap" 3 "Low investment signal";
    rule "urgent help pls" 3 "Low-signal / spammy phrasing" ].

Definition intentSignals : list jsstring :=
  map lit
    [ "asap"; "next month"; "starting"; "within"; "by";
      "proposal"; "quote"; "budget"; "scope"; "requirements"; "deliverables";
      "contract"; "retainer"; "call"; "meeting" ]%string.

Definition hardNegatives : list jsstring :=
  map lit [ "hookups"; "free dating app" ]%string.

(** [rules.filter(s => message.includes(s.key))] *)
Definition matched (message : jsstring) (rules : list SignalRule)
  : list SignalRule :=
  filter (fun s => includes message (key s)) rules.

(** [rules.reduce((sum, s) => sum + s.points, 0)] *)
Definition sumPoints (rules : list SignalRule) : Z :=
  fold_left (fun sum s => sum + points s) rules 0.

(** [phrases.some(k => message.includes(k))] *)
Definition some_included (message : jsstring) (phrases : list jsstring)
  : bool :=
  existsb (fun k => includes message k) phrases.

(** The two template literals of the reason lists. *)
Definition renderHigh (s : SignalRule) : jsstring :=
  reason s ++ lit " (+" ++ numberToString (points s) ++ lit ")".

Definition renderLow (s : SignalRule) : jsstring :=
  reason s ++ lit " (-" ++ numberToString (points s) ++ lit ")".

Section Classifier.

(** The built-in [String.prototype.toLowerCase]. *)
Variable toLowerCase : jsstring -> jsstring.

(** [String(messageRaw).toLowerCase()], with the parameter's default. *)
Definition normalize (messageRaw : jsval) : jsstring :=
  toLowerCase (String_ (withDefault messageRaw (JStr []))).

Definition hasIntentSignal (message : jsstring) : bool :=
  some_included message intentSignals.

Definition hasHardNegative (message : jsstring) : bool :=
  some_included message hardNegatives.

Definition classifyLead (messageRaw : jsval) : ClassificationResult :=
  let message := normalize messageRaw in
  let matchedHigh := matched message highSignals in
  let matchedLow := matched message lowSignals in
  let highScore := sumPoints matchedHigh in
  let lowScore := sumPoints matchedLow in
  let hasIntentSignal := hasIntentSignal message in
  let hasHardNegative := hasHardNegative message in
  let netScore := highScore - lowScore in
  let label :=
    if negb hasHardNegative && hasIntentSignal && (3 <=? netScore)
    then HIGH else LOW in
  mkResult label
    (mkScores highScore lowScore netScore)
    (mkReasons (map renderHigh matchedHigh) (map renderLow matchedLow)).

End Classifier.

(** ** Effects of the request handler

    The handler talks to four collaborators (the SMTP relay, the file
    system, Notion, Slack).  A computation threads the trace of the calls
    made so far and either returns a value or throws; the trace survives a
    throw, as the calls already made are not undone. *)

Record jserror : Type := mkError {
  err_data : jsval;
  err_message : jsval
}.

Inductive result (A : Type) : Type :=
| Returns (a : A)
| Throws (e : jserror).
Arguments Returns {A} a.
Arguments Throws {A} e.

(** The record appended to [data/leads.jsonl]. *)
Record Lead : Type := mkLead {
  lead_id : jsstring;
  created_at : jsstring;
  lead_label : Label;
  lead_scores : Scores;
  lead_reasons : Reasons;
  lead_email : jsval;
  lead_phone : jsval;
  lead_whatsapp : jsval;
  lead_company_website : jsval;
  lead_message : jsstring
}.

(** The argument of [createNotionLeadPage]. *)
Record NotionLead : Type := mkNotionLead {
  n_lead_id : jsstring;
  n_created_at : jsstring;
  n_label : Label;
  n_scores : Scores;
  n_email : jsval;
  n_phone : jsval;
  n_whatsapp : jsval;
  n_message : jsstring
}.

(** What [createNotionLeadPage] resolves to. *)
Record NotionResp : Type := mkNotionResp {
  resp_ok : bool;
  resp_skipped : bool;
  resp_page_id : jsval
}.

(** The values interpolated into the text posted to Slack. *)
Record SlackMessage : Type := mkSlackMessage {
  s_label : Label;
  s_scores : Scores;
  s_emailStatus : jsstring;
  s_emailError : jsval;
  s_notionStatus : jsstring;
  s_notionPageId : jsval;
  s_reasons : list jsstring;
  s_email : jsstring;
  s_phone : jsstring;
  s_whatsapp : jsstring;
  s_summary : jsstring;
  s_message : jsstring
}.

Inductive event : Type :=
| EvClassify (message : jsstring)
| EvSendMail (toEmail : jsstring)
| EvAppendLead (leadObj : Lead)
| EvNotionCreate (page : NotionLead)
| EvSlackPost (msg : SlackMessage)
| EvConsoleError (what : jsstring).

(** The response sent with [res.json], with its status code. *)
Inductive response : Type :=
| RespIgnored
| RespBadRequest (error : jsstring)
| RespAccepted (l : Label) (id : jsstring) (notionStatus : jsstring)
    (notionPageId : jsval)
| RespServerError (error : jsval).

Definition statusCode (r : response) : Z :=
  match r with
  | RespIgnored => 200
  | RespBadRequest _ => 400
  | RespAccepted _ _ _ _ => 200
  | RespServerError _ => 500
  end.

Definition resp_is_ok (r : response) : bool :=
  match r with
  | RespIgnored | RespAccepted _ _ _ _ => true
  | RespBadRequest _ | RespServerError _ => false
  end.

Definition M (A : Type) : Type := list event -> result A * list event.

Definition ret {A} (a : A) : M A := fun t => (Returns a, t).

Definition bind {A B} (m : M A) (f : A -> M B) : M B :=
  fun t =>
    match m t with
    | (Returns a, t') => f a t'
    | (Throws e, t') => (Throws e, t')
    end.

(** A call to a collaborator: it is recorded, then returns or throws as
    the collaborator decides. *)
Definition perform {A} (e : event) (r : result A) : M A :=
  fun t => (r, t ++ [e]).

(** [try { m } catch (err) { h err }] *)
Definition tryCatch {A} (m : M A) (h : jserror -> M A) : M A :=
  fun t =>
    match m t with
    | (Returns a, t') => (Returns a, t')
    | (Throws e, t') => h e t'
    end.

Declare Scope handler_scope.
Delimit Scope handler_scope with handler.
Notation "x <- m ;; k" := (bind m (fun x => k))
  (at level 61, m at next level, right associativity) : handler_scope.
Notation "m ;;; k" := (bind m (fun _ => k))
  (at level 61, right associativity) : handler_scope.

(** The collaborators, and the two impure reads ([safeId], the clock). *)
Record World : Type := mkWorld {
  sendMail : jsstring -> result unit;
  appendFileSync : Lead -> result unit;
  NOTION_TOKEN : bool;
  NOTION_DATABASE_ID : bool;
  pagesCreate : NotionLead -> result jsval;
  postMessage : SlackMessage -> result unit;
  safeId : jsstring;
  nowISOString : jsstring
}.

(** The fields destructured from [req.body]; an absent field is
    [JUndefined]. *)
Record Body : Type := mkBody {
  email : jsval;
  phone : jsval;
  whatsapp : jsval;
  message : jsval;
  company_website : jsval
}.

Definition isEmpty (s : jsstring) : bool :=
  match s with [] => true | _ => false end.

(** [s || null] and [s || "N/A"] for a string [s]. *)
Definition orNull (s : jsstring) : jsval :=
  orElse (JStr s) JNull.

Definition orNA (s : jsstring) : jsstring :=
  String_ (orElse (JStr s) (JStr (lit "N/A"))).

Definition isLikelyEmail (value : jsval) : bool :=
  let v := trim (String_ (withDefault value (JStr []))) in
  includes v (lit "@") && includes v (lit ".")
  && (6 <=? Z.of_nat (length v)).

(** [cleanMessage.slice(0, 140) + (cleanMessage.length > 140 ? "…" : "")];
    the ellipsis is the code unit U+2026. *)
Definition summaryOf (cleanMessage : jsstring) : jsstring :=
  firstn 140 cleanMessage
  ++ (if 140 <? Z.of_nat (length cleanMessage) then [8230%N] else []).

Section Handler.

Variable toLowerCase : jsstring -> jsstring.
Variable w : World.

Local Open Scope handler_scope.

Definition sendHighLeadAutoResponse (toEmail : jsstring) : M unit :=
  perform (EvSendMail toEmail) (sendMail w toEmail).

Definition appendLeadToDisk (leadObj : Lead) : M unit :=
  perform (EvAppendLead leadObj) (appendFileSync w leadObj).

Definition createNotionLeadPage (p : NotionLead) : M NotionResp :=
  if negb (NOTION_TOKEN w) || negb (NOTION_DATABASE_ID w)
  then ret (mkNotionResp false true JUndefined)
  else
    page_id <- perform (EvNotionCreate p) (pagesCreate w p) ;;
    ret (mkNotionResp true false page_id).

Definition classify (cleanMessage : jsstring) : M ClassificationResult :=
  perform (EvClassify cleanMessage)
    (Returns (classifyLead toLowerCase (JStr cleanMessage))).

Definition label_eqb (a b : Label) : bool :=
  match a, b with
  | HIGH, HIGH | LOW, LOW => true
  | _, _ => false
  end.

(** [String(v || "").trim()] *)
Definition clean (v : jsval) : jsstring :=
  trim (String_ (orElse v (JStr []))).

(** The honeypot test of the handler. *)
Definition honeypotFilled (body : Body) : bool :=
  0 <? Z.of_nat (length (clean (company_website body))).

(** The auto-response block: the status and the error text it leaves in
    [emailStatus] and [emailError]. *)
Definition autoRespond (label : Label) (cleanEmail : jsstring)
  : M (jsstring * jsval) :=
  if label_eqb label HIGH && isLikelyEmail (JStr cleanEmail)
  then tryCatch
         (sendHighLeadAutoResponse cleanEmail ;;;
          ret (lit "sent", JNull))
         (fun err =>
            ret (lit "failed",
                 orElse (err_message err)
                        (JStr (lit "unknown email error"))))
  else ret (lit "not_sent", JNull).

(** The Notion block: what it leaves in [notionStatus] and
    [notionPageId]. *)
Definition recordInNotion (label : Label) (p : NotionLead)
  : M (jsstring * jsval) :=
  if label_eqb label HIGH
  then tryCatch
         (notionResp <- createNotionLeadPage p ;;
          if resp_ok notionResp
          then ret (lit "ok", orElse (resp_page_id notionResp) JNull)
          else if resp_skipped notionResp
          then ret (lit "skipped", JNull)
          else ret (lit "failed", JNull))
         (fun err =>
            perform (EvConsoleError (lit "Notion write error:"))
              (Returns tt) ;;;
            ret (lit "failed", JNull))
  else ret (lit "skipped", JNull).

(** The Slack block, which ends the request. *)
Definition notifySlack (msg : SlackMessage) (lead_id : jsstring)
  : M response :=
  tryCatch
    (perform (EvSlackPost msg) (postMessage w msg) ;;;
     ret (RespAccepted (s_label msg) lead_id (s_notionStatus msg)
            (s_notionPageId msg)))
    (fun err =>
       perform (EvConsoleError (lit "Slack postMessage error:"))
         (Returns tt) ;;;
       ret (RespServerError
              (orElse (orElse (err_data err) (err_message err))
                      (JStr (lit "Unknown error"))))).

(** [app.post("/lead", ...)] *)
Definition postLead (body : Body) : M response :=
  if honeypotFilled body then ret RespIgnored
  else
    let cleanMessage := clean (message body) in
    let cleanEmail := clean (email body) in
    let cleanPhone := clean (phone body) in
    let cleanWhatsapp := clean (whatsapp body) in
    if isEmpty cleanMessage
    then ret (RespBadRequest (lit "Message is required."))
    else if isEmpty cleanEmail && isEmpty cleanPhone && isEmpty cleanWhatsapp
    then ret (RespBadRequest
      (lit "Provide at least one contact method: Email, Phone, or WhatsApp."))
    else
      r <- classify cleanMessage ;;
      let label := label r in
      let reasons := reasons r in
      let scores := scores r in
      mail <- autoRespond label cleanEmail ;;
      let emailStatus := fst mail in
      let emailError := snd mail in
      let summary := summaryOf cleanMessage in
      let lead_id := safeId w in
      let created_at := nowISOString w in
      appendLeadToDisk
        (mkLead lead_id created_at label scores reasons
           (orNull cleanEmail) (orNull cleanPhone) (orNull cleanWhatsapp)
           JNull cleanMessage) ;;;
      notion <-
        recordInNotion label
          (mkNotionLead lead_id created_at label scores
             (orNull cleanEmail) (orNull cleanPhone)
             (orNull cleanWhatsapp) cleanMessage) ;;
      let notionStatus := fst notion in
      let notionPageId := snd notion in
      notifySlack
        (mkSlackMessage label scores emailStatus emailError
           notionStatus notionPageId
           (if label_eqb label HIGH then high reasons else low reasons)
           (orNA cleanEmail) (orNA cleanPhone) (orNA cleanWhatsapp)
           summary cleanMessage)
        lead_id.

(** One request, from an empty trace: what the handler did and how it
    ended.  [Throws] is the rejection of the handler's promise: no
    response was sent by it. *)
Definition handle (body : Body) : result response * list event :=
  postLead body [].

End Handler.

(** ** Notions of the specification *)

(** The rules of a table whose phrase occurs in the message, selected in
    the order of the table. *)
Inductive Selected (m : jsstring)
  : list SignalRule -> list SignalRule -> Prop :=
| Selected_nil : Selected m [] []
| Selected_keep s rs out :
    Substring (key s) m -> Selected m rs out ->
    Selected m (s :: rs) (s :: out)
| Selected_skip s rs out :
    ~ Substring (key s) m -> Selected m rs out ->
    Selected m (s :: rs) out.

(** ["<reason> (<sign><points>)"] *)
Definition rendered (sign : string) (s : SignalRule) : jsstring :=
  reason s ++ lit " (" ++ lit sign ++ numberToString (points s) ++ lit ")".

(** What one rule adds to a score: its points when its phrase occurs at
    least once, whatever the number of occurrences. *)
Definition contribution (m : jsstring) (s : SignalRule) : Z :=
  match occurrences m (key s) with
  | O => 0
  | S _ => points s
  end.

Fixpoint total (zs : list Z) : Z :=
  match zs with
  | [] => 0
  | z :: zs' => z + total zs'
  end.

(** The result for a message without any match. *)
Definition noMatchResult : ClassificationResult :=
  mkResult LOW (mkScores 0 0 0) (mkReasons [] []).

Definition whitespaceOnly (s : jsstring) : bool :=
  forallb isWhiteSpace s.

Definition headNotBlank (k : jsstring) : bool :=
  match k with
  | [] => false
  | c :: _ => negb (isWhiteSpace c)
  end.

Definition isIntentKey (k : jsstring) : bool :=
  existsb (jsstring_eqb k) intentSignals.

(** A request that passes the honeypot test and the two validations. *)
Definition accepted (body : Body) : Prop :=
  honeypotFilled body = false
  /\ clean (message body) <> []
  /\ (clean (email body) <> [] \/ clean (phone body) <> []
      \/ clean (whatsapp body) <> []).

(** The calls the auto-response block makes. *)
Definition mailCalls (l : Label) (cleanEmail : jsstring) : list event :=
  if label_eqb l HIGH && isLikelyEmail (JStr cleanEmail)
  then [EvSendMail cleanEmail] else [].

(** The record the handler appends for an accepted request. *)
Definition leadOf (lower : jsstring -> jsstring) (w : World) (body : Body)
  : Lead :=
  let r := classifyLead lower (JStr (clean (message body))) in
  mkLead (safeId w) (nowISOString w) (label r) (scores r) (reasons r)
    (orNull (clean (email body))) (orNull (clean (phone body)))
    (orNull (clean (whatsapp body))) JNull (clean (message body)).

Definition isNotionOrSlack (ev : event) : bool :=
  match ev with
  | EvNotionCreate _ | EvSlackPost _ => true
  | _ => false
  end.

(** ** Sample inputs *)

Definition msg_scenario1 : jsval :=
  JStr (lit
    "I need this ASAP, please send a proposal and quote within this week. Budget is approved.").

Definition msg_scenario4 : jsval := JStr (lit "interested in hookups asap").

Definition msg_premium_retainer : jsval := JStr (lit "premium retainer").

Definition msg_premium_only : jsval :=
  JStr (lit "Premium, premium, PREMIUM service please").

Definition msg_blank : jsval := JStr (lit "   ").

Definition msg_asap_once : jsval := JStr (lit "asap").

Definition msg_asap_thrice : jsval := JStr (lit "asap asap asap").

Definition err_disk : jserror :=
  mkError JUndefined (JStr (lit "ENOSPC: no space left on device")).

Definition err_smtp : jserror :=
  mkError JUndefined (JStr (lit "connect ECONNREFUSED")).

(** Every collaborator answers. *)
Definition world_up : World :=
  mkWorld (fun _ => Returns tt) (fun _ => Returns tt) true true
    (fun _ => Returns (JStr (lit "page-1"))) (fun _ => Returns tt)
    (lit "lead_x_1") (lit "2024-01-01T00:00:00.000Z").

(** The SMTP relay and the disk both fail. *)
Definition world_mail_and_disk_down : World :=
  mkWorld (fun _ => Throws err_smtp) (fun _ => Throws err_disk) true true
    (fun _ => Returns (JStr (lit "page-1"))) (fun _ => Returns tt)
    (lit "lead_x_1") (lit "2024-01-01T00:00:00.000Z").

(** A bot: only the honeypot field is filled. *)
Definition body_bot : Body :=
  mkBody JUndefined JUndefined JUndefined JUndefined
    (JStr (lit " http://spam.example ")).

Definition body_hot : Body :=
  mkBody (JStr (lit "ann@example.com")) JUndefined JUndefined
    (JStr (lit "Please send a quote ASAP")) JUndefined.

(** ** What an accepted request does, block by block

    Closed forms of the three blocks of the handler that catch their own
    errors; each is proved equal to the block it describes before it is
    used. *)

(** [emailStatus] and [emailError] after the auto-response block. *)
Definition mailOutcome (w : World) (l : Label) (cleanEmail : jsstring)
  : jsstring * jsval :=
  if label_eqb l HIGH && isLikelyEmail (JStr cleanEmail)
  then match sendMail w cleanEmail with
       | Returns _ => (lit "sent", JNull)
       | Throws err =>
           (lit "failed",
            orElse (err_message err) (JStr (lit "unknown email error")))
       end
  else (lit "not_sent", JNull).

(** [notionStatus] and [notionPageId] after the Notion block. *)
Definition notionOutcome (w : World) (l : Label) (p : NotionLead)
  : jsstring * jsval :=
  if label_eqb l HIGH
  then if negb (NOTION_TOKEN w) || negb (NOTION_DATABASE_ID w)
       then (lit "skipped", JNull)
       else match pagesCreate w p with
            | Returns page_id => (lit "ok", orElse page_id JNull)
            | Throws _ => (lit "failed", JNull)
            end
  else (lit "skipped", JNull).

(** The calls the Notion block makes. *)
Definition notionCalls (w : World) (l : Label) (p : NotionLead)
  : list event :=
  if label_eqb l HIGH
  then if negb (NOTION_TOKEN w) || negb (NOTION_DATABASE_ID w)
       then []
       else EvNotionCreate p
            :: match pagesCreate w p with
               | Returns _ => []
               | Throws _ => [EvConsoleError (lit "Notion write error:")]
               end
  else [].

(** The response and the calls of the Slack block. *)
Definition slackResponse (w : World) (msg : SlackMessage) (id : jsstring)
  : response :=
  match postMessage w msg with
  | Returns _ =>
      RespAccepted (s_label msg) id (s_notionStatus msg) (s_notionPageId msg)
  | Throws err =>
      RespServerError
        (orElse (orElse (err_data err) (err_message err))
                (JStr (lit "Unknown error")))
  end.

Definition slackCalls (w : World) (msg : SlackMessage) : list event :=
  EvSlackPost msg
  :: match postMessage w msg with
     | Returns _ => []
     | Throws _ => [EvConsoleError (lit "Slack postMessage error:")]
     end.

(** The argument the handler passes to [createNotionLeadPage]. *)
Definition notionLeadOf (lower : jsstring -> jsstring) (w : World)
  (body : Body) : NotionLead :=
  let r := classifyLead lower (JStr (clean (message body))) in
  mkNotionLead (safeId w) (nowISOString w) (label r) (scores r)
    (orNull (clean (email body))) (orNull (clean (phone body)))
    (orNull (clean (whatsapp body))) (clean (message body)).

(** The notification the handler posts. *)
Definition slackMessageOf (lower : jsstring -> jsstring) (w : World)
  (body : Body) : SlackMessage :=
  let r := classifyLead lower (JStr (clean (message body))) in
  let mail := mailOutcome w (label r) (clean (email body)) in
  let notion := notionOutcome w (label r) (notionLeadOf lower w body) in
  mkSlackMessage (label r) (scores r) (fst mail) (snd mail)
    (fst notion) (snd notion)
    (if label_eqb (label r) HIGH then high (reasons r) else low (reasons r))
    (orNA (clean (email body))) (orNA (clean (phone body)))
    (orNA (clean (whatsapp body)))
    (summaryOf (clean (message body))) (clean (message body)).

Definition isSlackPost (ev : event) : bool :=
  match ev with
  | EvSlackPost _ => true
  | _ => false
  end.

Definition isAppendLead (ev : event) : bool :=
  match ev with
  | EvAppendLead _ => true
  | _ => false
  end.

(** The rule of "premium", the one high-signal rule outside the intent
    set. *)
Definition premiumRule : SignalRule :=
  rule "premium" 2 "Premium service language".

(** The points a rule can add once the intent phrases are known to be
    absent. *)
Definition pointsOutsideIntent (s : SignalRule) : Z :=
  if isIntentKey (key s) then 0 else points s.

(** ** More sample inputs *)

Definition body_cold : Body :=
  mkBody (JStr (lit "bob@example.com")) JUndefined JUndefined
    (JStr (lit "  just curious, maybe later  ")) JUndefined.



Definition err_api : jserror :=
  mkError (JStr (lit "rate_limited")) (JStr (lit "An API error occurred")).

(** Only Slack fails. *)
Definition world_slack_down : World :=
  mkWorld (fun _ => Returns tt) (fun _ => Returns tt) true true
    (fun _ => Returns (JStr (lit "page-1"))) (fun _ => Throws err_api)
    (lit "lead_x_1") (lit "2024-01-01T00:00:00.000Z").

(** The SMTP relay and Notion fail; disk and Slack answer. *)
Definition world_mail_and_notion_down : World :=
  mkWorld (fun _ => Throws err_smtp) (fun _ => Returns tt) true true
    (fun _ => Throws err_api) (fun _ => Returns tt)
    (lit "lead_x_1") (lit "2024-01-01T00:00:00.000Z").

Definition msg_mixed_case : jsval :=
  JStr (lit "Could we schedule a Call? We need it AsAp.").

(** ** The Notion page and the reasons line of the notification *)

(** The property values [createNotionLeadPage] builds. *)
Inductive NotionProp : Type :=
| PTitle (content : jsstring)
| PRichText (content : jsval)
| PSelect (name : Label)
| PDate (start : jsstring)
| PNumber (n : Z)
| PEmail (email : jsval)
| PPhoneNumber (phone : jsval).

(** The [properties] object of [createNotionLeadPage], as the list of its
    entries in insertion order: eight fixed entries, then one entry for
    each contact that is truthy. *)
Definition notionProperties (p : NotionLead) : list (string * NotionProp) :=
  [ ("Name"%string, PTitle (lit "Lead " ++ n_lead_id p));
    ("Lead ID"%string, PRichText (JStr (n_lead_id p)));
    ("Label"%string, PSelect (n_label p));
    ("Created At"%string, PDate (n_created_at p));
    ("Message"%string, PRichText (JStr (n_message p)));
    ("Score (net)"%string, PNumber (netScore (n_scores p)));
    ("Score (High)"%string, PNumber (highScore (n_scores p)));
    ("Score (Low)"%string, PNumber (lowScore (n_scores p))) ]
  ++ (if truthy (n_email p)
      then [("Email"%string, PEmail (n_email p))] else [])
  ++ (if truthy (n_phone p)
      then [("Phone"%string, PPhoneNumber (n_phone p))] else [])
  ++ (if truthy (n_whatsapp p)
      then [("WhatsApp"%string, PRichText (n_whatsapp p))] else []).

(** [Array.prototype.join] on an array of strings. *)
Fixpoint join (sep : jsstring) (parts : list jsstring) : jsstring :=
  match parts with
  | [] => []
  | [x] => x
  | x :: rest => x ++ sep ++ join sep rest
  end.

(** [shown.join(", ") || "No keyword match"], the reasons line of the
    Slack text, where [shown] is the reason list that goes with the
    label. *)
Definition reasonsLine (shown : list jsstring) : jsstring :=
  String_ (orElse (JStr (join (lit ", ") shown))
                  (JStr (lit "No keyword match"))).

(** ** Strings *)

Lemma unit_eqb_eq (a b : codeunit) : unit_eqb a b = true <-> a = b.
Proof. unfold unit_eqb. apply N.eqb_eq. Qed.

Lemma jsstring_eqb_eq (a b : jsstring) : jsstring_eqb a b = true <-> a = b.
Proof.
  revert b. induction a as [|x a IH]; intros [|y b]; simpl;
    try (split; [discriminate | congruence]); try tauto.
  rewrite andb_true_iff, unit_eqb_eq, IH. split.
  - intros [-> ->]. reflexivity.
  - intros H. inversion H. auto.
Qed.

Lemma startsWith_spec (s k : jsstring) :
  startsWith s k = true <-> exists post, s = k ++ post.
Proof.
  revert s. induction k as [|c k IH]; intros s; simpl.
  - split; [intros _; exists s; reflexivity | reflexivity].
  - destruct s as [|d s].
    + split; [discriminate | intros [post H]; discriminate].
    + rewrite andb_true_iff, unit_eqb_eq, IH. split.
      * intros [-> [post ->]]. exists post. reflexivity.
      * intros [post H]. inversion H. eauto.
Qed.

Lemma includes_spec (s k : jsstring) :
  includes s k = true <-> Substring k s.
Proof.
  unfold Substring. induction s as [|d s IH].
  - simpl. rewrite orb_false_r, startsWith_spec. split.
    + intros [post H]. exists [], post. exact H.
    + intros [pre [post H]]. destruct pre as [|x pre]; [|discriminate].
      exists post. exact H.
  - change (includes (d :: s) k)
      with (startsWith (d :: s) k || includes s k).
    rewrite orb_true_iff, startsWith_spec, IH. split.
    + intros [[post H] | [pre [post H]]].
      * exists [], post. exact H.
      * exists (d :: pre), post. simpl. rewrite H. reflexivity.
    + intros [pre [post H]]. destruct pre as [|x pre].
      * left. exists post. exact H.
      * right. inversion H. exists pre, post. reflexivity.
Qed.

Lemma includes_false_spec (s k : jsstring) :
  includes s k = false <-> ~ Substring k s.
Proof.
  rewrite <- includes_spec. destruct (includes s k); split; congruence.
Qed.

Lemma includes_occurrences (s k : jsstring) :
  includes s k = negb (Nat.eqb (occurrences s k) 0).
Proof.
  induction s as [|d s IH].
  - simpl. destruct (startsWith [] k); reflexivity.
  - change (includes (d :: s) k)
      with (startsWith (d :: s) k || includes s k).
    change (occurrences (d :: s) k)
      with ((if startsWith (d :: s) k then 1 else 0) + occurrences s k)%nat.
    rewrite IH. destruct (startsWith (d :: s) k); simpl; reflexivity.
Qed.

Lemma includes_head_In (s k : jsstring) (c : codeunit) :
  includes s (c :: k) = true -> In c s.
Proof.
  rewrite includes_spec. intros [pre [post ->]].
  apply in_or_app. right. left. reflexivity.
Qed.

Lemma some_included_spec (m : jsstring) (phrases : list jsstring) :
  some_included m phrases = true
  <-> exists k, In k phrases /\ Substring k m.
Proof.
  unfold some_included. rewrite existsb_exists.
  split; intros [k [Hin H]]; exists k; split; auto;
    apply includes_spec; exact H.
Qed.

Lemma some_included_false (m : jsstring) (phrases : list jsstring) :
  some_included m phrases = false
  <-> ~ exists k, In k phrases /\ Substring k m.
Proof.
  rewrite <- some_included_spec.
  destruct (some_included m phrases); split; congruence.
Qed.

(** ** Scores *)

Lemma fold_points_total (rules : list SignalRule) (a : Z) :
  fold_left (fun sum s => sum + points s) rules a
  = a + total (map points rules).
Proof.
  revert a. induction rules as [|s rules IH]; intros a; simpl.
  - lia.
  - rewrite IH. lia.
Qed.

Lemma sumPoints_total (rules : list SignalRule) :
  sumPoints rules = total (map points rules).
Proof. unfold sumPoints. rewrite fold_points_total. lia. Qed.

Lemma sumPoints_matched_contributions (m : jsstring)
  (rules : list SignalRule) :
  sumPoints (matched m rules) = total (map (contribution m) rules).
Proof.
  rewrite sumPoints_total. unfold matched, contribution.
  induction rules as [|s rules IH]; simpl; [reflexivity|].
  rewrite includes_occurrences.
  destruct (occurrences m (key s)); simpl; rewrite IH; reflexivity.
Qed.

Lemma total_nonneg (zs : list Z) :
  (forall z, In z zs -> 0 <= z) -> 0 <= total zs.
Proof.
  induction zs as [|z zs IH]; simpl; intros H; [lia|].
  assert (0 <= z) by (apply H; auto).
  assert (0 <= total zs) by (apply IH; intros; apply H; auto). lia.
Qed.

Lemma matched_In (m : jsstring) (rules : list SignalRule) (s : SignalRule) :
  In s (matched m rules) <-> In s rules /\ includes m (key s) = true.
Proof. unfold matched. apply filter_In. Qed.

Lemma sumPoints_matched_nonneg (m : jsstring) (rules : list SignalRule) :
  (forall s, In s rules -> 0 <= points s) ->
  0 <= sumPoints (matched m rules).
Proof.
  intros H. rewrite sumPoints_total. apply total_nonneg.
  intros z Hz. apply in_map_iff in Hz. destruct Hz as [s [<- Hs]].
  apply H. apply matched_In in Hs. tauto.
Qed.

Lemma sumPoints_In_le (rules : list SignalRule) (s : SignalRule) :
  (forall s', In s' rules -> 0 <= points s') ->
  In s rules -> points s <= sumPoints rules.
Proof.
  rewrite sumPoints_total. induction rules as [|r rules IH]; simpl.
  - tauto.
  - intros Hpos [-> | Hin].
    + assert (0 <= total (map points rules)).
      { apply total_nonneg. intros z Hz. apply in_map_iff in Hz.
        destruct Hz as [s' [<- Hs']]. auto. }
      lia.
    + assert (0 <= points r) by auto.
      assert (points s <= total (map points rules)) by auto. lia.
Qed.

Lemma highSignals_points_pos (s : SignalRule) :
  In s highSignals -> 1 <= points s.
Proof.
  unfold highSignals. simpl.
  intros H; repeat (destruct H as [<- | H]; [simpl; lia|]); contradiction.
Qed.

Lemma lowSignals_points_pos (s : SignalRule) :
  In s lowSignals -> 1 <= points s.
Proof.
  unfold lowSignals. simpl.
  intros H; repeat (destruct H as [<- | H]; [simpl; lia|]); contradiction.
Qed.

Lemma Selected_matched (m : jsstring) (rules : list SignalRule) :
  Selected m rules (matched m rules).
Proof.
  unfold matched. induction rules as [|s rules IH]; simpl.
  - constructor.
  - destruct (includes m (key s)) eqn:E.
    + apply Selected_keep; [apply includes_spec; exact E | exact IH].
    + apply Selected_skip; [apply includes_false_spec; exact E | exact IH].
Qed.

Lemma Selected_unique (m : jsstring) (rules out : list SignalRule) :
  Selected m rules out -> out = matched m rules.
Proof.
  unfold matched. induction 1 as [|s rs out Hs _ IH|s rs out Hs _ IH]; simpl.
  - reflexivity.
  - apply includes_spec in Hs. rewrite Hs, IH. reflexivity.
  - apply includes_false_spec in Hs. rewrite Hs. exact IH.
Qed.

Lemma intentSignals_are_high_keys (k : jsstring) :
  In k intentSignals -> In k (map key highSignals).
Proof.
  intros H. unfold intentSignals in H. simpl in H.
  repeat (destruct H as [<- | H]; [vm_compute; tauto|]). contradiction.
Qed.

(** ** The decision rule *)

Lemma classifyLead_unfold (lower : jsstring -> jsstring) (raw : jsval) :
  classifyLead lower raw
  = mkResult
      (if negb (hasHardNegative (normalize lower raw))
          && hasIntentSignal (normalize lower raw)
          && (3 <=? sumPoints (matched (normalize lower raw) highSignals)
                    - sumPoints (matched (normalize lower raw) lowSignals))
       then HIGH else LOW)
      (mkScores
         (sumPoints (matched (normalize lower raw) highSignals))
         (sumPoints (matched (normalize lower raw) lowSignals))
         (sumPoints (matched (normalize lower raw) highSignals)
          - sumPoints (matched (normalize lower raw) lowSignals)))
      (mkReasons
         (map renderHigh (matched (normalize lower raw) highSignals))
         (map renderLow (matched (normalize lower raw) lowSignals))).
Proof. unfold classifyLead. reflexivity. Qed.

Ltac open_classifier :=
  rewrite ?classifyLead_unfold;
  cbn [label scores reasons highScore lowScore netScore high low].

Lemma classifyLead_highScore (lower : jsstring -> jsstring) (raw : jsval) :
  highScore (scores (classifyLead lower raw))
  = sumPoints (matched (normalize lower raw) highSignals).
Proof. open_classifier. reflexivity. Qed.

Lemma classifyLead_lowScore (lower : jsstring -> jsstring) (raw : jsval) :
  lowScore (scores (classifyLead lower raw))
  = sumPoints (matched (normalize lower raw) lowSignals).
Proof. open_classifier. reflexivity. Qed.

Lemma classifyLead_netScore (lower : jsstring -> jsstring) (raw : jsval) :
  netScore (scores (classifyLead lower raw))
  = highScore (scores (classifyLead lower raw))
    - lowScore (scores (classifyLead lower raw)).
Proof. open_classifier. reflexivity. Qed.

Lemma label_HIGH_gate (lower : jsstring -> jsstring) (raw : jsval) :
  label (classifyLead lower raw) = HIGH
  <-> hasHardNegative (normalize lower raw) = false
      /\ hasIntentSignal (normalize lower raw) = true
      /\ 3 <= netScore (scores (classifyLead lower raw)).
Proof.
  open_classifier.
  generalize (hasHardNegative (normalize lower raw)),
    (hasIntentSignal (normalize lower raw)),
    (sumPoints (matched (normalize lower raw) highSignals)
     - sumPoints (matched (normalize lower raw) lowSignals)).
  intros [|] [|] z; destruct (Z.leb_spec 3 z); cbn [negb andb];
    split; try discriminate; try tauto;
    intros (H1 & H2 & H3); try discriminate; lia.
Qed.

(** C1. For every message, whatever the lower-casing does, the label is
    HIGH exactly when the lower-cased message contains no hard-negative
    phrase, contains at least one intent phrase, and the net score (high
    score minus low score) is at least 3; in every other case the label is
    LOW. *)
Theorem classifyLead_HIGH_iff (lower : jsstring -> jsstring) (raw : jsval) :
  let m := normalize lower raw in
  let r := classifyLead lower raw in
  let gate :=
    ~ (exists k, In k hardNegatives /\ Substring k m)
    /\ (exists k, In k intentSignals /\ Substring k m)
    /\ 3 <= netScore (scores r) in
  netScore (scores r) = highScore (scores r) - lowScore (scores r)
  /\ (label r = HIGH <-> gate)
  /\ (label r = LOW <-> ~ gate).
Proof.
  intros m r gate. split; [apply classifyLead_netScore|].
  assert (Hl : label r = HIGH <-> gate).
  { subst gate r m. rewrite label_HIGH_gate.
    unfold hasHardNegative, hasIntentSignal.
    rewrite some_included_false, some_included_spec. tauto. }
  split; [exact Hl|].
  rewrite <- Hl. destruct (label r); split; congruence.
Qed.

(** C3. The first end-to-end scenario of the specification: the rules
    matched are asap, within, proposal, quote and budget (listed in table
    order), the scores are 11, 0 and 11, an intent phrase is present and
    the label is HIGH. *)
Theorem scenario1_HIGH :
  let raw := msg_scenario1 in
  let m := normalize toLowerCaseLatin1 raw in
  matched m highSignals
  = [ rule "asap" 3 "Urgent timeline";
      rule "within" 2 "Defined timeline window";
      rule "proposal" 2 "Requesting a proposal";
      rule "quote" 2 "Requesting a quote";
      rule "budget" 2 "Budget mentioned" ]
  /\ matched m lowSignals = []
  /\ hasIntentSignal m = true
  /\ scores (classifyLead toLowerCaseLatin1 raw) = mkScores 11 0 11
  /\ label (classifyLead toLowerCaseLatin1 raw) = HIGH.
Proof. vm_compute. repeat split; reflexivity. Qed.

(** C4. Whenever the lower-cased message contains a hard-negative phrase,
    the label is LOW, whatever else the message contains and whatever the
    scores are. *)
Theorem hardNegative_forces_LOW
  (lower : jsstring -> jsstring) (raw : jsval) (k : jsstring) :
  In k hardNegatives ->
  Substring k (normalize lower raw) ->
  label (classifyLead lower raw) = LOW.
Proof.
  intros Hin Hsub.
  assert (H : hasHardNegative (normalize lower raw) = true).
  { apply some_included_spec. exists k. split; assumption. }
  destruct (label (classifyLead lower raw)) eqn:E; [|reflexivity].
  apply label_HIGH_gate in E. destruct E as (E & _). congruence.
Qed.

(** The fourth scenario: "hookups" vetoes a message that has an intent
    phrase worth 3 points. *)
Lemma hardNegative_forces_LOW_witness :
  hasIntentSignal (normalize toLowerCaseLatin1 msg_scenario4) = true
  /\ netScore (scores (classifyLead toLowerCaseLatin1 msg_scenario4)) = 3
  /\ label (classifyLead toLowerCaseLatin1 msg_scenario4) = LOW.
Proof.
  split; [reflexivity|]. split; [reflexivity|].
  apply (hardNegative_forces_LOW toLowerCaseLatin1 msg_scenario4
           (lit "hookups")).
  - simpl. left. reflexivity.
  - exists (lit "interested in "), (lit " asap"). reflexivity.
Defined.

(** C5. Each score is the sum, over the rules of its table, of the rule's
    contribution, which is the rule's points when its phrase occurs at
    least once in the lower-cased message and 0 otherwise: the number of
    occurrences beyond the first plays no part.  In particular
    "asap asap asap", where the phrase occurs three times, has the high
    score of "asap", where it occurs once. *)
Theorem points_counted_once :
  (forall (lower : jsstring -> jsstring) (raw : jsval),
      let m := normalize lower raw in
      let r := classifyLead lower raw in
      highScore (scores r) = total (map (contribution m) highSignals)
      /\ lowScore (scores r) = total (map (contribution m) lowSignals))
  /\ (forall (m : jsstring) (s : SignalRule),
         contribution m s
         = if Nat.leb 1 (occurrences m (key s)) then points s else 0)
  /\ occurrences (normalize toLowerCaseLatin1 msg_asap_once) (lit "asap")
     = 1%nat
  /\ occurrences (normalize toLowerCaseLatin1 msg_asap_thrice) (lit "asap")
     = 3%nat
  /\ highScore (scores (classifyLead toLowerCaseLatin1 msg_asap_thrice))
     = highScore (scores (classifyLead toLowerCaseLatin1 msg_asap_once))
  /\ highScore (scores (classifyLead toLowerCaseLatin1 msg_asap_once)) = 3.
Proof.
  split; [|split].
  - intros lower raw m r. subst m r.
    rewrite classifyLead_highScore, classifyLead_lowScore.
    rewrite !sumPoints_matched_contributions. split; reflexivity.
  - intros m s. unfold contribution.
    destruct (occurrences m (key s)); reflexivity.
  - vm_compute. repeat split; reflexivity.
Qed.

(** C6. The high reasons are the rules of [highSignals] whose phrase occurs
    in the lower-cased message, in the order of the table, each rendered as
    its reason followed by " (+<points>)"; the low reasons are those of
    [lowSignals], in table order, rendered with " (-<points>)". *)
Theorem reasons_in_declaration_order
  (lower : jsstring -> jsstring) (raw : jsval) :
  let m := normalize lower raw in
  let r := classifyLead lower raw in
  exists hs ls,
    Selected m highSignals hs
    /\ Selected m lowSignals ls
    /\ high (reasons r) = map (rendered "+") hs
    /\ low (reasons r) = map (rendered "-") ls.
Proof.
  intros m r.
  exists (matched m highSignals), (matched m lowSignals).
  split; [apply Selected_matched|]. split; [apply Selected_matched|].
  subst r m. open_classifier. split.
  - apply map_ext. intros s. reflexivity.
  - apply map_ext. intros s. reflexivity.
Qed.

(** The order is that of the table, not that of the message, and the
    strings are the expected ones. *)
Example reasons_order_example :
  reasons (classifyLead toLowerCaseLatin1
             (JStr (lit "A quote ASAP, not sure, maybe later")))
  = mkReasons
      (map lit ["Urgent timeline (+3)"; "Requesting a quote (+2)"]%string)
      (map lit ["Uncertain timeline (-3)"; "Uncertain intent (-3)"]%string).
Proof. vm_compute. reflexivity. Qed.

(** C9. A HIGH result has at least one high reason and a high score of at
    least 1: every intent phrase is the key of a high-signal rule, so the
    intent gate forces a match in [highSignals]. *)
Theorem HIGH_has_high_reason (lower : jsstring -> jsstring) (raw : jsval) :
  label (classifyLead lower raw) = HIGH ->
  high (reasons (classifyLead lower raw)) <> []
  /\ 1 <= highScore (scores (classifyLead lower raw))
  /\ (forall k, In k intentSignals -> In k (map key highSignals)).
Proof.
  intros H. apply label_HIGH_gate in H.
  destruct H as (_ & Hint & _).
  apply some_included_spec in Hint. destruct Hint as (k & Hk & Hsub).
  pose proof (intentSignals_are_high_keys k Hk) as Hkey.
  apply in_map_iff in Hkey. destruct Hkey as [s [Hs Hin]].
  assert (Hm : In s (matched (normalize lower raw) highSignals)).
  { apply matched_In. split; [exact Hin|].
    rewrite Hs. apply includes_spec. exact Hsub. }
  split; [|split].
  - open_classifier. intros E. apply map_eq_nil in E.
    rewrite E in Hm. exact Hm.
  - rewrite classifyLead_highScore.
    pose proof (highSignals_points_pos s Hin).
    assert (points s <= sumPoints (matched (normalize lower raw) highSignals)).
    { apply sumPoints_In_le; [|exact Hm].
      intros s' Hs'. apply matched_In in Hs'.
      pose proof (highSignals_points_pos s' (proj1 Hs')). lia. }
    lia.
  - apply intentSignals_are_high_keys.
Qed.

Lemma HIGH_has_high_reason_witness :
  label (classifyLead toLowerCaseLatin1 msg_scenario1) = HIGH
  /\ high (reasons (classifyLead toLowerCaseLatin1 msg_scenario1)) <> []
  /\ 1 <= highScore (scores (classifyLead toLowerCaseLatin1 msg_scenario1)).
Proof.
  split; [reflexivity|].
  split; apply (HIGH_has_high_reason toLowerCaseLatin1 msg_scenario1);
    reflexivity.
Defined.

(** ** The intent gate *)

Lemma isIntentKey_spec (k : jsstring) :
  isIntentKey k = true <-> In k intentSignals.
Proof.
  unfold isIntentKey. rewrite existsb_exists. split.
  - intros [k' [Hin H]]. apply jsstring_eqb_eq in H. subst. exact Hin.
  - intros H. exists k. split; [exact H | apply jsstring_eqb_eq; reflexivity].
Qed.

Lemma no_intent_match_check (m : jsstring) :
  forallb (fun s => negb (isIntentKey (key s))) (matched m highSignals) = true
  -> forall s, In s (matched m highSignals) -> ~ In (key s) intentSignals.
Proof.
  intros H s Hs Hin. rewrite forallb_forall in H. specialize (H s Hs).
  apply isIntentKey_spec in Hin. rewrite Hin in H. discriminate.
Qed.

(** C2, as the code has it.  "premium" is the only key of [highSignals]
    that is not an intent phrase; "retainer" is one.  For every message
    whose matched high-signal rules all lie outside the intent set, no
    intent phrase is present and the label is LOW, whatever the scores. *)
Theorem no_intent_phrase_forces_LOW
  (lower : jsstring -> jsstring) (raw : jsval) :
  (forall s, In s (matched (normalize lower raw) highSignals) ->
             ~ In (key s) intentSignals) ->
  (forall s, In s highSignals ->
             (In (key s) intentSignals <-> key s <> lit "premium"))
  /\ hasIntentSignal (normalize lower raw) = false
  /\ label (classifyLead lower raw) = LOW.
Proof.
  intros Hnone.
  assert (Hgate : hasIntentSignal (normalize lower raw) = false).
  { apply some_included_false. intros (k & Hk & Hsub).
    pose proof (intentSignals_are_high_keys k Hk) as Hkey.
    apply in_map_iff in Hkey. destruct Hkey as [s [Hs Hin]].
    apply (Hnone s).
    - apply matched_In. split; [exact Hin|].
      rewrite Hs. apply includes_spec. exact Hsub.
    - rewrite Hs. exact Hk. }
  split; [|split; [exact Hgate|]].
  - intros s Hs. rewrite <- isIntentKey_spec, <- jsstring_eqb_eq.
    unfold highSignals in Hs. simpl in Hs.
    repeat (destruct Hs as [<- | Hs];
            [vm_compute; split; [discriminate || (intros _; discriminate)
                                | congruence || reflexivity] |]).
    contradiction.
  - destruct (label (classifyLead lower raw)) eqn:E; [|reflexivity].
    apply label_HIGH_gate in E. destruct E as (_ & E & _). congruence.
Qed.

Lemma no_intent_phrase_forces_LOW_witness :
  highScore (scores (classifyLead toLowerCaseLatin1 msg_premium_only)) = 2
  /\ hasIntentSignal (normalize toLowerCaseLatin1 msg_premium_only) = false
  /\ label (classifyLead toLowerCaseLatin1 msg_premium_only) = LOW.
Proof.
  split; [reflexivity|].
  apply (no_intent_phrase_forces_LOW toLowerCaseLatin1 msg_premium_only).
  apply no_intent_match_check. vm_compute. reflexivity.
Defined.

(** C2 as stated fails: "retainer" belongs to the intent set, so a message
    whose only matched phrases are "premium" and "retainer" passes the
    intent gate and is labelled HIGH. *)
Lemma retainer_opens_intent_gate :
  map key (matched (normalize toLowerCaseLatin1 msg_premium_retainer)
             highSignals)
  = [lit "premium"; lit "retainer"]
  /\ In (lit "retainer") intentSignals
  /\ hasIntentSignal (normalize toLowerCaseLatin1 msg_premium_retainer) = true
  /\ label (classifyLead toLowerCaseLatin1 msg_premium_retainer) = HIGH.
Proof.
  split; [reflexivity|]. split; [|split; reflexivity].
  apply isIntentKey_spec. reflexivity.
Qed.

(** ** Blank messages *)

Lemma lowerUnit_whitespace (c : codeunit) :
  isWhiteSpace c = true -> lowerUnit c = c.
Proof.
  unfold isWhiteSpace, lowerUnit. intros H.
  rewrite ?orb_true_iff, ?andb_true_iff, ?N.eqb_eq, ?N.leb_le in H.
  destruct ((65 <=? c) && (c <=? 90))%N eqn:E1.
  { apply andb_true_iff in E1. rewrite !N.leb_le in E1. lia. }
  destruct ((192 <=? c) && (c <=? 222) && negb (c =? 215))%N eqn:E2.
  { rewrite !andb_true_iff, !N.leb_le in E2. lia. }
  reflexivity.
Qed.

Lemma toLowerCaseLatin1_whitespace (ws : jsstring) :
  whitespaceOnly ws = true -> toLowerCaseLatin1 ws = ws.
Proof.
  unfold whitespaceOnly, toLowerCaseLatin1.
  induction ws as [|c ws IH]; simpl; [reflexivity|].
  rewrite andb_true_iff. intros [Hc Hws].
  rewrite lowerUnit_whitespace, IH by assumption. reflexivity.
Qed.

Lemma whitespace_includes_none (ws k : jsstring) :
  whitespaceOnly ws = true -> headNotBlank k = true ->
  includes ws k = false.
Proof.
  intros Hws Hk. destruct k as [|c k]; [discriminate|].
  simpl in Hk. apply negb_true_iff in Hk.
  destruct (includes ws (c :: k)) eqn:E; [|reflexivity].
  apply includes_head_In in E.
  unfold whitespaceOnly in Hws. rewrite forallb_forall in Hws.
  rewrite (Hws c E) in Hk. discriminate.
Qed.

Lemma whitespace_matched_none (ws : jsstring) (rules : list SignalRule) :
  whitespaceOnly ws = true ->
  forallb (fun s => headNotBlank (key s)) rules = true ->
  matched ws rules = [].
Proof.
  intros Hws. unfold matched.
  induction rules as [|s rules IH]; simpl; [reflexivity|].
  rewrite andb_true_iff. intros [Hs Hrules].
  rewrite (whitespace_includes_none ws (key s) Hws Hs). auto.
Qed.

Lemma whitespace_some_included_none (ws : jsstring)
  (phrases : list jsstring) :
  whitespaceOnly ws = true ->
  forallb headNotBlank phrases = true ->
  some_included ws phrases = false.
Proof.
  intros Hws. unfold some_included.
  induction phrases as [|k phrases IH]; simpl; [reflexivity|].
  rewrite andb_true_iff. intros [Hk Hphrases].
  rewrite (whitespace_includes_none ws k Hws Hk). auto.
Qed.

(** C7, as the code has it.  An absent or empty message is normalised to
    the empty string, [null] to the string "null", and a message made of
    white space to itself (the classifier does not trim); each of them is
    classified LOW with scores 0, 0, 0 and no reasons. *)
Theorem blank_message_LOW (raw : jsval) :
  raw = JUndefined \/ raw = JNull
  \/ (exists ws, raw = JStr ws /\ whitespaceOnly ws = true) ->
  normalize toLowerCaseLatin1 raw
  = match raw with
    | JStr ws => ws
    | JNull => lit "null"
    | _ => []
    end
  /\ classifyLead toLowerCaseLatin1 raw = noMatchResult.
Proof.
  intros [-> | [-> | [ws [-> Hws]]]].
  - split; reflexivity.
  - split; vm_compute; reflexivity.
  - assert (Hn : normalize toLowerCaseLatin1 (JStr ws) = ws).
    { unfold normalize. simpl. apply toLowerCaseLatin1_whitespace, Hws. }
    split; [exact Hn|].
    rewrite classifyLead_unfold, Hn. unfold hasIntentSignal.
    rewrite (whitespace_matched_none ws highSignals Hws eq_refl).
    rewrite (whitespace_matched_none ws lowSignals Hws eq_refl).
    rewrite (whitespace_some_included_none ws intentSignals Hws eq_refl).
    rewrite andb_false_r. reflexivity.
Qed.

Lemma blank_message_LOW_witness :
  normalize toLowerCaseLatin1 msg_blank = lit "   "
  /\ classifyLead toLowerCaseLatin1 msg_blank = noMatchResult.
Proof.
  apply (blank_message_LOW msg_blank).
  right. right. exists (lit "   "). split; reflexivity.
Defined.

(** C7 as stated fails on its first half: neither a white-space message nor
    [null] is normalised to the empty string. *)
Lemma blank_not_normalized_to_empty :
  ~ (normalize toLowerCaseLatin1 msg_blank = []
     /\ classifyLead toLowerCaseLatin1 msg_blank = noMatchResult)
  /\ ~ (normalize toLowerCaseLatin1 JNull = []
        /\ classifyLead toLowerCaseLatin1 JNull = noMatchResult).
Proof. split; intros [H _]; vm_compute in H; discriminate H. Qed.

(** ** The handler *)

(** C8. A request whose honeypot field is not empty once trimmed is
    answered [{ ok: true, ignored: true }] at once, whatever its other
    fields hold and whatever the collaborators would do: the handler has
    made no call at all (no classification, mail, append, Notion or Slack
    call). *)
Theorem honeypot_ignored
  (lower : jsstring -> jsstring) (w : World) (body : Body) :
  clean (company_website body) <> [] ->
  handle lower w body = (Returns RespIgnored, []).
Proof.
  intros H. unfold handle, postLead, honeypotFilled.
  destruct (clean (company_website body)) as [|c s]; [congruence|].
  reflexivity.
Qed.

Lemma honeypot_ignored_witness :
  clean (message body_bot) = []
  /\ clean (email body_bot) = []
  /\ handle toLowerCaseLatin1 world_up body_bot = (Returns RespIgnored, []).
Proof.
  split; [reflexivity|]. split; [reflexivity|].
  apply (honeypot_ignored toLowerCaseLatin1 world_up body_bot).
  vm_compute. discriminate.
Defined.

(** A blank or missing message never reaches the classifier: the handler
    rejects it. *)
Lemma blank_message_rejected
  (lower : jsstring -> jsstring) (w : World) (body : Body) :
  honeypotFilled body = false ->
  clean (message body) = [] ->
  handle lower w body
  = (Returns (RespBadRequest (lit "Message is required.")), []).
Proof.
  intros Hh Hm. unfold handle, postLead. rewrite Hh, Hm. reflexivity.
Qed.

Lemma isEmpty_false (s : jsstring) : s <> [] -> isEmpty s = false.
Proof. destruct s; [congruence | reflexivity]. Qed.

Lemma accepted_contacts (body : Body) :
  accepted body ->
  isEmpty (clean (email body)) && isEmpty (clean (phone body))
  && isEmpty (clean (whatsapp body)) = false.
Proof.
  intros (_ & _ & [H | [H | H]]); apply isEmpty_false in H; rewrite H;
    rewrite ?andb_false_r; reflexivity.
Qed.

Ltac run_handler :=
  unfold tryCatch, bind, perform, ret; cbv beta iota.

(** The auto-response block never throws, and calls the relay exactly when
    the lead is HIGH with a plausible address. *)
Lemma autoRespond_run (w : World) (l : Label) (em : jsstring)
  (t : list event) :
  exists mail,
    autoRespond w l em t = (Returns mail, t ++ mailCalls l em).
Proof.
  unfold autoRespond, mailCalls.
  destruct (label_eqb l HIGH && isLikelyEmail (JStr em)).
  - unfold tryCatch, bind, sendHighLeadAutoResponse, perform, ret.
    destruct (sendMail w em); eexists; reflexivity.
  - eexists. unfold ret. rewrite app_nil_r. reflexivity.
Qed.

(** The Notion block never throws either, and only adds to the trace. *)
Lemma recordInNotion_run (w : World) (l : Label) (p : NotionLead)
  (t : list event) :
  exists notion tail,
    recordInNotion w l p t = (Returns notion, t ++ tail).
Proof.
  unfold recordInNotion. destruct (label_eqb l HIGH).
  - unfold createNotionLeadPage.
    destruct (negb (NOTION_TOKEN w) || negb (NOTION_DATABASE_ID w)).
    + run_handler. cbn [resp_ok resp_skipped]. cbv beta.
      do 2 eexists. rewrite app_nil_r. reflexivity.
    + run_handler. destruct (pagesCreate w p).
      * cbn [resp_ok]. cbv beta. do 2 eexists. reflexivity.
      * do 2 eexists. rewrite <- app_assoc. reflexivity.
  - unfold ret. do 2 eexists. rewrite app_nil_r. reflexivity.
Qed.

Lemma notifySlack_run (w : World) (msg : SlackMessage) (id : jsstring)
  (t : list event) :
  exists resp tail, notifySlack w msg id t = (Returns resp, t ++ tail).
Proof.
  unfold notifySlack. run_handler.
  destruct (postMessage w msg).
  - do 2 eexists. reflexivity.
  - do 2 eexists. rewrite <- app_assoc. reflexivity.
Qed.

(** The course of an accepted request up to the append, and how the append
    decides what follows. *)
Lemma handle_accepted
  (lower : jsstring -> jsstring) (w : World) (body : Body) :
  accepted body ->
  exists out tail,
    handle lower w body
    = (out,
       EvClassify (clean (message body))
       :: mailCalls (label (classifyLead lower (JStr (clean (message body)))))
            (clean (email body))
       ++ EvAppendLead (leadOf lower w body) :: tail)
    /\ (forall e, appendFileSync w (leadOf lower w body) = Throws e ->
                  out = Throws e /\ tail = []).
Proof.
  intros Hacc. pose proof (accepted_contacts body Hacc) as Hc.
  destruct Hacc as (Hh & Hm & _). apply isEmpty_false in Hm.
  unfold handle, postLead. rewrite Hh, Hm, Hc.
  unfold bind at 1. unfold classify at 1. unfold perform at 1.
  change ([] ++ [EvClassify (clean (message body))])
    with [EvClassify (clean (message body))].
  cbv zeta. unfold bind at 1.
  destruct (autoRespond_run w
              (label (classifyLead lower (JStr (clean (message body)))))
              (clean (email body)) [EvClassify (clean (message body))])
    as [mail ->].
  unfold bind at 1. unfold appendLeadToDisk at 1. unfold perform at 1.
  fold (leadOf lower w body).
  destruct (appendFileSync w (leadOf lower w body)) as [[]|e0] eqn:Happ.
  - unfold bind at 1.
    match goal with
    | |- context [recordInNotion w ?l ?p ?t] =>
        destruct (recordInNotion_run w l p t) as (notion & tail1 & ->)
    end.
    match goal with
    | |- context [notifySlack w ?msg ?id ?t] =>
        destruct (notifySlack_run w msg id t) as (resp & tail2 & ->)
    end.
    exists (Returns resp), (tail1 ++ tail2). split.
    + f_equal; cbn [app]; rewrite <- ?app_assoc; reflexivity.
    + intros e He. discriminate He.
  - exists (Throws e0), []. split.
    + f_equal; cbn [app]; rewrite <- ?app_assoc; reflexivity.
    + intros e He. inversion He. auto.
Qed.

Lemma existsb_app_false {A} (f : A -> bool) (l1 l2 : list A) :
  existsb f l1 = false -> existsb f l2 = false ->
  existsb f (l1 ++ l2) = false.
Proof. intros H1 H2. rewrite existsb_app, H1, H2. reflexivity. Qed.

Theorem append_failure_is_fatal
  (lower : jsstring -> jsstring) (w : World) (body : Body) :
  accepted body ->
  (exists l, In (EvAppendLead l) (snd (handle lower w body)))
  /\ (forall e,
        label (classifyLead lower (JStr (clean (message body)))) = HIGH ->
        isLikelyEmail (JStr (clean (email body))) = true ->
        sendMail w (clean (email body)) = Throws e ->
        exists l rest,
          snd (handle lower w body)
          = EvClassify (clean (message body))
            :: EvSendMail (clean (email body))
            :: EvAppendLead l :: rest)
  /\ (forall e,
        (forall l, appendFileSync w l = Throws e) ->
        fst (handle lower w body) = Throws e
        /\ existsb isNotionOrSlack (snd (handle lower w body)) = false).
Proof.
  intros Hacc.
  destruct (handle_accepted lower w body Hacc) as (out & tail & -> & Hthrow).
  cbn [fst snd]. split; [|split].
  - exists (leadOf lower w body). right. apply in_or_app. right. left.
    reflexivity.
  - intros e HH Hlikely _. exists (leadOf lower w body), tail.
    unfold mailCalls. rewrite HH, Hlikely. reflexivity.
  - intros e He. destruct (Hthrow e (He _)) as [-> ->].
    split; [reflexivity|].
    cbn [existsb isNotionOrSlack orb]. apply existsb_app_false.
    + unfold mailCalls.
      destruct (label_eqb _ HIGH && isLikelyEmail _); reflexivity.
    + reflexivity.
Qed.

Lemma append_failure_is_fatal_witness :
  sendMail world_mail_and_disk_down (clean (email body_hot)) = Throws err_smtp
  /\ handle toLowerCaseLatin1 world_mail_and_disk_down body_hot
     = (Throws err_disk,
        [ EvClassify (lit "Please send a quote ASAP");
          EvSendMail (lit "ann@example.com");
          EvAppendLead (leadOf toLowerCaseLatin1 world_mail_and_disk_down
                          body_hot) ])
  /\ fst (handle toLowerCaseLatin1 world_mail_and_disk_down body_hot)
     = Throws err_disk
  /\ existsb isNotionOrSlack
       (snd (handle toLowerCaseLatin1 world_mail_and_disk_down body_hot))
     = false.
Proof.
  split; [reflexivity|]. split; [vm_compute; reflexivity|].
  apply (append_failure_is_fatal toLowerCaseLatin1 world_mail_and_disk_down
           body_hot).
  - split; [reflexivity|]. split; [vm_compute; discriminate|].
    left. vm_compute. discriminate.
  - intros l. reflexivity.
Defined.

(** ** Further properties of the classifier *)

Lemma total_map_le {A : Type} (f g : A -> Z) (l : list A) :
  (forall a, In a l -> f a <= g a) ->
  total (map f l) <= total (map g l).
Proof.
  induction l as [|a l IH]; cbn [map total]; intros H; [lia|].
  assert (f a <= g a) by (apply H; left; reflexivity).
  assert (total (map f l) <= total (map g l))
    by (apply IH; intros b Hb; apply H; right; exact Hb).
  lia.
Qed.

Lemma contribution_cases (m : jsstring) (s : SignalRule) :
  contribution m s = if includes m (key s) then points s else 0.
Proof.
  unfold contribution. rewrite includes_occurrences.
  destruct (occurrences m (key s)); reflexivity.
Qed.

Lemma sumPoints_matched_le (m : jsstring) (rules : list SignalRule) :
  (forall s, In s rules -> 0 <= points s) ->
  sumPoints (matched m rules) <= sumPoints rules.
Proof.
  intros H. rewrite sumPoints_matched_contributions, sumPoints_total.
  apply total_map_le. intros s Hs. rewrite contribution_cases.
  specialize (H s Hs). destruct (includes m (key s)); lia.
Qed.

Lemma highSignals_points_range (s : SignalRule) :
  In s highSignals -> 1 <= points s <= 3.
Proof.
  unfold highSignals. cbn [In].
  intros H; repeat (destruct H as [<- | H]; [cbn; lia|]); contradiction.
Qed.

Lemma lowSignals_points_range (s : SignalRule) :
  In s lowSignals -> 2 <= points s <= 4.
Proof.
  unfold lowSignals. cbn [In].
  intros H; repeat (destruct H as [<- | H]; [cbn; lia|]); contradiction.
Qed.

(** X1. Whatever the message, the high score lies between 0 and 31 (the
    sum of all high-signal points), the low score between 0 and 28, and
    the net score between -28 and 31. *)
Theorem scores_bounded (lower : jsstring -> jsstring) (raw : jsval) :
  0 <= highScore (scores (classifyLead lower raw)) <= 31
  /\ 0 <= lowScore (scores (classifyLead lower raw)) <= 28
  /\ -28 <= netScore (scores (classifyLead lower raw)) <= 31.
Proof.
  rewrite classifyLead_netScore, classifyLead_highScore,
    classifyLead_lowScore.
  pose proof (sumPoints_matched_nonneg (normalize lower raw) highSignals) as H1.
  pose proof (sumPoints_matched_nonneg (normalize lower raw) lowSignals) as H2.
  pose proof (sumPoints_matched_le (normalize lower raw) highSignals) as H3.
  pose proof (sumPoints_matched_le (normalize lower raw) lowSignals) as H4.
  assert (Hh : forall s, In s highSignals -> 0 <= points s).
  { intros s Hs. pose proof (highSignals_points_range s Hs). lia. }
  assert (Hl : forall s, In s lowSignals -> 0 <= points s).
  { intros s Hs. pose proof (lowSignals_points_range s Hs). lia. }
  specialize (H1 Hh). specialize (H2 Hl).
  specialize (H3 Hh). specialize (H4 Hl).
  assert (E1 : sumPoints highSignals = 31) by (vm_compute; reflexivity).
  assert (E2 : sumPoints lowSignals = 28) by (vm_compute; reflexivity).
  lia.
Qed.

Lemma some_included_false_each (m : jsstring) (phrases : list jsstring)
  (k : jsstring) :
  some_included m phrases = false -> In k phrases -> includes m k = false.
Proof.
  unfold some_included. intros H Hk.
  destruct (includes m k) eqn:E; [|reflexivity].
  assert (existsb (fun k0 => includes m k0) phrases = true).
  { apply existsb_exists. exists k. split; assumption. }
  congruence.
Qed.

(** Without an intent phrase only "premium" can match: the high score is
    at most 2. *)
Lemma no_intent_highScore_le_2 (m : jsstring) :
  hasIntentSignal m = false -> sumPoints (matched m highSignals) <= 2.
Proof.
  intros Hgate. rewrite sumPoints_matched_contributions.
  assert (E : total (map pointsOutsideIntent highSignals) = 2)
    by (vm_compute; reflexivity).
  rewrite <- E. apply total_map_le. intros s Hs.
  rewrite contribution_cases. unfold pointsOutsideIntent.
  destruct (isIntentKey (key s)) eqn:Hk.
  - apply isIntentKey_spec in Hk.
    rewrite (some_included_false_each m intentSignals (key s) Hgate Hk). lia.
  - pose proof (highSignals_points_range s Hs).
    destruct (includes m (key s)); lia.
Qed.

(** X2. The intent gate never decides alone: a message without an intent
    phrase has a high score of at most 2, hence a net score below the
    threshold.  The label is HIGH exactly when no hard-negative phrase
    occurs and the net score is at least 3. *)
Theorem intent_gate_is_implied (lower : jsstring -> jsstring) (raw : jsval) :
  (hasIntentSignal (normalize lower raw) = false ->
   highScore (scores (classifyLead lower raw)) <= 2)
  /\ (label (classifyLead lower raw) = HIGH
      <-> ~ (exists k, In k hardNegatives /\ Substring k (normalize lower raw))
          /\ 3 <= netScore (scores (classifyLead lower raw))).
Proof.
  assert (Hle : hasIntentSignal (normalize lower raw) = false ->
                highScore (scores (classifyLead lower raw)) <= 2).
  { intros E. rewrite classifyLead_highScore.
    exact (no_intent_highScore_le_2 _ E). }
  split; [exact Hle|].
  assert (Himp : 3 <= netScore (scores (classifyLead lower raw)) ->
                 hasIntentSignal (normalize lower raw) = true).
  { intros Hnet.
    destruct (hasIntentSignal (normalize lower raw)) eqn:E; [reflexivity|].
    specialize (Hle eq_refl).
    pose proof (sumPoints_matched_nonneg (normalize lower raw) lowSignals)
      as Hlow.
    assert (0 <= sumPoints (matched (normalize lower raw) lowSignals)).
    { apply Hlow. intros s Hs.
      pose proof (lowSignals_points_range s Hs). lia. }
    rewrite classifyLead_netScore, classifyLead_lowScore in Hnet. lia. }
  rewrite label_HIGH_gate. unfold hasHardNegative at 1.
  rewrite some_included_false. split.
  - intros (H1 & _ & H3). split; assumption.
  - intros (H1 & H3). split; [exact H1|]. split; [exact (Himp H3)|exact H3].
Qed.

Lemma intent_gate_is_implied_witness :
  hasIntentSignal (normalize toLowerCaseLatin1 msg_premium_only) = false
  /\ highScore (scores (classifyLead toLowerCaseLatin1 msg_premium_only)) <= 2.
Proof.
  assert (H : hasIntentSignal (normalize toLowerCaseLatin1 msg_premium_only)
              = false) by (vm_compute; reflexivity).
  split; [exact H|].
  exact (proj1 (intent_gate_is_implied toLowerCaseLatin1 msg_premium_only) H).
Defined.

Lemma sumPoints_between (rules : list SignalRule) (a b : Z) :
  (forall s, In s rules -> a <= points s <= b) ->
  a * Z.of_nat (length rules) <= sumPoints rules
  <= b * Z.of_nat (length rules).
Proof.
  rewrite sumPoints_total.
  induction rules as [|s rules IH]; intros H.
  - cbn [length map total]. lia.
  - cbn [map total]. change (length (s :: rules)) with (S (length rules)).
    rewrite Nat2Z.inj_succ.
    assert (a <= points s <= b) by (apply H; left; reflexivity).
    assert (a * Z.of_nat (length rules) <= total (map points rules)
            <= b * Z.of_nat (length rules))
      by (apply IH; intros s' Hs'; apply H; right; exact Hs').
    lia.
Qed.

(** X3. Scores and reason lists go together: with [n] high reasons the
    high score lies between [n] and [3 n], with [n] low reasons the low
    score lies between [2 n] and [4 n]; so a score is 0 exactly when its
    reason list is empty. *)
Theorem scores_follow_reasons (lower : jsstring -> jsstring) (raw : jsval) :
  let r := classifyLead lower raw in
  Z.of_nat (length (high (reasons r))) <= highScore (scores r)
    <= 3 * Z.of_nat (length (high (reasons r)))
  /\ 2 * Z.of_nat (length (low (reasons r))) <= lowScore (scores r)
     <= 4 * Z.of_nat (length (low (reasons r)))
  /\ (highScore (scores r) = 0 <-> high (reasons r) = [])
  /\ (lowScore (scores r) = 0 <-> low (reasons r) = []).
Proof.
  intros r. subst r. open_classifier. rewrite !length_map.
  pose proof (sumPoints_between (matched (normalize lower raw) highSignals)
                1 3) as Hh.
  pose proof (sumPoints_between (matched (normalize lower raw) lowSignals)
                2 4) as Hl.
  assert (Hh' := Hh (fun s Hs =>
            highSignals_points_range s (proj1 (proj1 (matched_In _ _ s) Hs)))).
  assert (Hl' := Hl (fun s Hs =>
            lowSignals_points_range s (proj1 (proj1 (matched_In _ _ s) Hs)))).
  clear Hh Hl.
  split; [lia|]. split; [lia|]. split.
  - split.
    + intros E. destruct (matched (normalize lower raw) highSignals);
        [reflexivity|].
      cbn [length] in Hh'. rewrite Nat2Z.inj_succ in Hh'. lia.
    + intros E. apply map_eq_nil in E. rewrite E. reflexivity.
  - split.
    + intros E. destruct (matched (normalize lower raw) lowSignals);
        [reflexivity|].
      cbn [length] in Hl'. rewrite Nat2Z.inj_succ in Hl'. lia.
    + intros E. apply map_eq_nil in E. rewrite E. reflexivity.
Qed.

Lemma Substring_trans (k m m' : jsstring) :
  Substring k m -> Substring m m' -> Substring k m'.
Proof.
  intros (p1 & q1 & ->) (p2 & q2 & ->).
  exists (p2 ++ p1), (q1 ++ q2). rewrite <- !app_assoc. reflexivity.
Qed.

Lemma includes_mono (k m m' : jsstring) :
  Substring m m' -> includes m k = true -> includes m' k = true.
Proof.
  rewrite !includes_spec. intros H1 H2. exact (Substring_trans k m m' H2 H1).
Qed.

Lemma matched_mono (m m' : jsstring) (rules : list SignalRule)
  (s : SignalRule) :
  Substring m m' -> In s (matched m rules) -> In s (matched m' rules).
Proof.
  rewrite !matched_In. intros H [Hin Hinc].
  split; [exact Hin | exact (includes_mono _ _ _ H Hinc)].
Qed.

Lemma sumPoints_matched_mono (m m' : jsstring) (rules : list SignalRule) :
  (forall s, In s rules -> 0 <= points s) ->
  Substring m m' ->
  sumPoints (matched m rules) <= sumPoints (matched m' rules).
Proof.
  intros Hpos Hsub. rewrite !sumPoints_matched_contributions.
  apply total_map_le. intros s Hs. rewrite !contribution_cases.
  specialize (Hpos s Hs).
  destruct (includes m (key s)) eqn:E.
  - rewrite (includes_mono _ _ _ Hsub E). lia.
  - destruct (includes m' (key s)); lia.
Qed.

(** X4. Text can only add matches.  When the lower-cased form of one
    message occurs inside the lower-cased form of another, every reason of
    the first is a reason of the second, neither score goes down, and a
    hard-negative veto on the first is kept on the second. *)
Theorem more_text_more_matches
  (lower : jsstring -> jsstring) (a b : jsval) :
  Substring (normalize lower a) (normalize lower b) ->
  highScore (scores (classifyLead lower a))
    <= highScore (scores (classifyLead lower b))
  /\ lowScore (scores (classifyLead lower a))
     <= lowScore (scores (classifyLead lower b))
  /\ (forall x, In x (high (reasons (classifyLead lower a))) ->
                In x (high (reasons (classifyLead lower b))))
  /\ (forall x, In x (low (reasons (classifyLead lower a))) ->
                In x (low (reasons (classifyLead lower b))))
  /\ (hasHardNegative (normalize lower a) = true ->
      label (classifyLead lower b) = LOW).
Proof.
  intros Hsub.
  rewrite !classifyLead_highScore, !classifyLead_lowScore.
  split; [|split; [|split; [|split]]].
  - apply sumPoints_matched_mono; [|exact Hsub].
    intros s Hs. pose proof (highSignals_points_range s Hs). lia.
  - apply sumPoints_matched_mono; [|exact Hsub].
    intros s Hs. pose proof (lowSignals_points_range s Hs). lia.
  - open_classifier. intros x Hx. apply in_map_iff in Hx.
    destruct Hx as (s & <- & Hs). apply in_map.
    exact (matched_mono _ _ _ _ Hsub Hs).
  - open_classifier. intros x Hx. apply in_map_iff in Hx.
    destruct Hx as (s & <- & Hs). apply in_map.
    exact (matched_mono _ _ _ _ Hsub Hs).
  - intros Hneg. apply some_included_spec in Hneg.
    destruct Hneg as (k & Hk & Hks).
    destruct (label (classifyLead lower b)) eqn:E; [|reflexivity].
    apply label_HIGH_gate in E. destruct E as (E & _).
    assert (hasHardNegative (normalize lower b) = true).
    { apply some_included_spec. exists k. split; [exact Hk|].
      exact (Substring_trans _ _ _ Hks Hsub). }
    congruence.
Qed.

Lemma more_text_more_matches_witness :
  Substring (normalize toLowerCaseLatin1 msg_asap_once)
    (normalize toLowerCaseLatin1 msg_scenario4)
  /\ highScore (scores (classifyLead toLowerCaseLatin1 msg_asap_once))
     <= highScore (scores (classifyLead toLowerCaseLatin1 msg_scenario4)).
Proof.
  assert (H : Substring (normalize toLowerCaseLatin1 msg_asap_once)
                (normalize toLowerCaseLatin1 msg_scenario4)).
  { exists (lit "interested in hookups "), []. vm_compute. reflexivity. }
  split; [exact H|].
  exact (proj1 (more_text_more_matches toLowerCaseLatin1 msg_asap_once
                  msg_scenario4 H)).
Defined.

Lemma toLowerCaseLatin1_app (a b : jsstring) :
  toLowerCaseLatin1 (a ++ b) = toLowerCaseLatin1 a ++ toLowerCaseLatin1 b.
Proof. unfold toLowerCaseLatin1. apply map_app. Qed.

(** X5. Matching ignores letter case and word boundaries: when a phrase of
    either table is written in any letter case anywhere in the message,
    its rule is matched; its reason is listed and its points are in the
    score. *)
Theorem phrase_in_any_case_matches
  (s : SignalRule) (pre u post : jsstring) :
  toLowerCaseLatin1 u = key s ->
  let r := classifyLead toLowerCaseLatin1 (JStr (pre ++ u ++ post)) in
  (In s highSignals ->
   In (renderHigh s) (high (reasons r)) /\ points s <= highScore (scores r))
  /\ (In s lowSignals ->
      In (renderLow s) (low (reasons r)) /\ points s <= lowScore (scores r)).
Proof.
  intros Hu r. subst r.
  assert (Hinc : includes (normalize toLowerCaseLatin1
                             (JStr (pre ++ u ++ post))) (key s) = true).
  { apply includes_spec. unfold normalize. cbn [withDefault String_].
    rewrite !toLowerCaseLatin1_app, Hu.
    exists (toLowerCaseLatin1 pre), (toLowerCaseLatin1 post). reflexivity. }
  rewrite classifyLead_highScore, classifyLead_lowScore. open_classifier.
  split; intros Hs.
  - assert (Hm : In s (matched (normalize toLowerCaseLatin1
                                  (JStr (pre ++ u ++ post))) highSignals))
      by (apply matched_In; split; assumption).
    split; [apply in_map; exact Hm|].
    apply sumPoints_In_le; [|exact Hm].
    intros s' Hs'. apply matched_In in Hs'.
    pose proof (highSignals_points_range s' (proj1 Hs')). lia.
  - assert (Hm : In s (matched (normalize toLowerCaseLatin1
                                  (JStr (pre ++ u ++ post))) lowSignals))
      by (apply matched_In; split; assumption).
    split; [apply in_map; exact Hm|].
    apply sumPoints_In_le; [|exact Hm].
    intros s' Hs'. apply matched_In in Hs'.
    pose proof (lowSignals_points_range s' (proj1 Hs')). lia.
Qed.

Lemma phrase_in_any_case_matches_witness :
  In (renderHigh (rule "by" 1 "Deadline mentioned"))
     (high (reasons (classifyLead toLowerCaseLatin1
                       (JStr (lit "on stand" ++ lit "BY" ++ lit " mode")))))
  /\ points (rule "by" 1 "Deadline mentioned")
     <= highScore (scores (classifyLead toLowerCaseLatin1
                             (JStr (lit "on stand" ++ lit "BY"
                                    ++ lit " mode")))).
Proof.
  assert (Hu : toLowerCaseLatin1 (lit "BY")
               = key (rule "by" 1 "Deadline mentioned"))
    by (vm_compute; reflexivity).
  assert (Hin : In (rule "by" 1 "Deadline mentioned") highSignals).
  { unfold highSignals. do 4 right. left. reflexivity. }
  exact (proj1 (phrase_in_any_case_matches
                  (rule "by" 1 "Deadline mentioned")
                  (lit "on stand") (lit "BY") (lit " mode") Hu) Hin).
Defined.

(** ** Trimming and the helpers built on it *)

Lemma trimStart_split (s : jsstring) :
  exists ws, whitespaceOnly ws = true /\ s = ws ++ trimStart s.
Proof.
  induction s as [|c s IH].
  - exists []. split; reflexivity.
  - cbn [trimStart]. destruct (isWhiteSpace c) eqn:E.
    + destruct IH as (ws & Hws & Hs). exists (c :: ws). split.
      * unfold whitespaceOnly in *. cbn [forallb]. rewrite E, Hws.
        reflexivity.
      * cbn [app]. rewrite <- Hs. reflexivity.
    + exists []. split; reflexivity.
Qed.

Lemma trimStart_head (s t : jsstring) (c : codeunit) :
  trimStart s = c :: t -> isWhiteSpace c = false.
Proof.
  induction s as [|d s IH]; cbn [trimStart]; [discriminate|].
  destruct (isWhiteSpace d) eqn:E; [exact IH|].
  intros H. inversion H. subst. exact E.
Qed.

Lemma trimStart_idem (s : jsstring) : trimStart (trimStart s) = trimStart s.
Proof.
  destruct (trimStart s) as [|c t] eqn:E; [reflexivity|].
  cbn [trimStart]. rewrite (trimStart_head s t c E). reflexivity.
Qed.

Lemma trimStart_nil_iff (s : jsstring) :
  trimStart s = [] <-> whitespaceOnly s = true.
Proof.
  unfold whitespaceOnly. induction s as [|c s IH]; cbn [trimStart forallb].
  - tauto.
  - destruct (isWhiteSpace c); cbn [andb]; [exact IH|].
    split; discriminate.
Qed.

Lemma whitespaceOnly_app (a b : jsstring) :
  whitespaceOnly (a ++ b) = whitespaceOnly a && whitespaceOnly b.
Proof. unfold whitespaceOnly. apply forallb_app. Qed.

Lemma whitespaceOnly_rev (a : jsstring) :
  whitespaceOnly (rev a) = whitespaceOnly a.
Proof.
  induction a as [|c a IH]; [reflexivity|].
  cbn [rev]. rewrite whitespaceOnly_app, IH.
  unfold whitespaceOnly. cbn [forallb]. rewrite andb_true_r.
  apply andb_comm.
Qed.

Lemma trimEnd_split (s : jsstring) :
  exists ws, whitespaceOnly ws = true /\ s = trimEnd s ++ ws.
Proof.
  unfold trimEnd. destruct (trimStart_split (rev s)) as (ws & Hws & Hs).
  exists (rev ws). split.
  - rewrite whitespaceOnly_rev. exact Hws.
  - rewrite <- rev_app_distr, <- Hs, rev_involutive. reflexivity.
Qed.

Lemma trimEnd_idem (s : jsstring) : trimEnd (trimEnd s) = trimEnd s.
Proof.
  unfold trimEnd. rewrite rev_involutive, trimStart_idem. reflexivity.
Qed.

Lemma trimEnd_nil_iff (s : jsstring) :
  trimEnd s = [] <-> whitespaceOnly s = true.
Proof.
  unfold trimEnd. rewrite <- whitespaceOnly_rev, <- trimStart_nil_iff.
  split; intros H.
  - apply (f_equal (@rev codeunit)) in H.
    rewrite rev_involutive in H. exact H.
  - rewrite H. reflexivity.
Qed.

(** Trimming the end leaves a string that does not start with white space
    that way. *)
Lemma trimStart_trimEnd_fixed (s : jsstring) :
  trimStart s = s -> trimStart (trimEnd s) = trimEnd s.
Proof.
  intros Hfix. destruct (trimEnd_split s) as (ws & Hws & Hs).
  destruct (trimEnd s) as [|c t] eqn:E; [reflexivity|].
  rewrite Hs in Hfix. cbn [app trimStart] in Hfix.
  cbn [trimStart].
  destruct (isWhiteSpace c) eqn:Ec; [|reflexivity].
  exfalso.
  pose proof (trimStart_split (t ++ ws)) as (ws' & _ & Hs').
  rewrite Hfix in Hs'.
  apply (f_equal (@length codeunit)) in Hs'.
  rewrite !length_app in Hs'. cbn [length] in Hs'.
  rewrite ?length_app in Hs'. lia.
Qed.

Lemma trim_idem (s : jsstring) : trim (trim s) = trim s.
Proof.
  unfold trim.
  rewrite (trimStart_trimEnd_fixed (trimStart s) (trimStart_idem s)).
  apply trimEnd_idem.
Qed.

Lemma trim_nil_iff (s : jsstring) :
  trim s = [] <-> whitespaceOnly s = true.
Proof.
  unfold trim. rewrite trimEnd_nil_iff. split; intros H.
  - destruct (trimStart_split s) as (ws & Hws & Hs).
    rewrite Hs, whitespaceOnly_app, Hws, H. reflexivity.
  - destruct (trimStart_split s) as (ws & Hws & Hs).
    rewrite Hs, whitespaceOnly_app in H. apply andb_true_iff in H. tauto.
Qed.

Lemma trim_split (s : jsstring) :
  exists ws1 ws2,
    whitespaceOnly ws1 = true /\ whitespaceOnly ws2 = true
    /\ s = ws1 ++ trim s ++ ws2.
Proof.
  destruct (trimStart_split s) as (ws1 & H1 & Hs1).
  destruct (trimEnd_split (trimStart s)) as (ws2 & H2 & Hs2).
  exists ws1, ws2. split; [exact H1|]. split; [exact H2|].
  unfold trim. rewrite <- Hs2. exact Hs1.
Qed.

Lemma trim_ends (s : jsstring) :
  (forall c t, trim s = c :: t -> isWhiteSpace c = false)
  /\ (forall c t, trim s = t ++ [c] -> isWhiteSpace c = false).
Proof.
  split; intros c t H.
  - assert (Hfix : trimStart (trim s) = trim s).
    { unfold trim. apply trimStart_trimEnd_fixed, trimStart_idem. }
    rewrite H in Hfix. cbn [trimStart] in Hfix.
    destruct (isWhiteSpace c) eqn:E; [|reflexivity]. exfalso.
    pose proof (trimStart_split t) as (ws' & _ & Hs').
    rewrite Hfix in Hs'.
    apply (f_equal (@length codeunit)) in Hs'.
    rewrite !length_app in Hs'. cbn [length] in Hs'.
  rewrite ?length_app in Hs'. lia.
  - unfold trim, trimEnd in H.
    apply (f_equal (@rev codeunit)) in H.
    rewrite rev_involutive, rev_app_distr in H. cbn [rev app] in H.
    exact (trimStart_head _ _ _ H).
Qed.

Lemma clean_of_string (v : jsval) :
  exists s, clean v = trim s
            /\ String_ (orElse (JStr (clean v)) (JStr [])) = clean v.
Proof.
  exists (String_ (orElse v (JStr []))). split; [reflexivity|].
  unfold orElse. cbn [truthy]. destruct (clean v); reflexivity.
Qed.

(** X6. A cleaned field, [String(v || "").trim()], neither starts nor ends
    with white space and is not changed by cleaning it again.  A string
    cleans to the empty string exactly when it consists of white space
    only; an absent or [null] field cleans to the empty string. *)
Theorem clean_is_trimmed (v : jsval) :
  clean (JStr (clean v)) = clean v
  /\ (forall c t, clean v = c :: t -> isWhiteSpace c = false)
  /\ (forall c t, clean v = t ++ [c] -> isWhiteSpace c = false)
  /\ (forall s, clean (JStr s) = [] <-> whitespaceOnly s = true)
  /\ clean JUndefined = [] /\ clean JNull = [].
Proof.
  split; [|split; [|split; [|split; [|split]]]].
  - destruct (clean_of_string v) as (s & Hs & Hv).
    unfold clean at 1. rewrite Hv, Hs. apply trim_idem.
  - exact (proj1 (trim_ends _)).
  - exact (proj2 (trim_ends _)).
  - intros s. unfold clean, orElse. cbn [truthy].
    destruct s as [|c s]; cbn [String_].
    + split; reflexivity.
    + apply trim_nil_iff.
  - reflexivity.
  - reflexivity.
Qed.

Lemma clean_is_trimmed_witness :
  clean (message body_cold) = 106%N :: lit "ust curious, maybe later"
  /\ isWhiteSpace 106%N = false.
Proof.
  assert (H : clean (message body_cold)
              = 106%N :: lit "ust curious, maybe later")
    by (vm_compute; reflexivity).
  split; [exact H|].
  exact (proj1 (proj2 (clean_is_trimmed (message body_cold))) 106%N
           (lit "ust curious, maybe later") H).
Defined.

(** X7. [isLikelyEmail] ignores white space around the address, and what
    it accepts has, once trimmed, at least 6 code units, an "@" and a
    ".". *)
Theorem isLikelyEmail_trimmed (s : jsstring) :
  isLikelyEmail (JStr (trim s)) = isLikelyEmail (JStr s)
  /\ (isLikelyEmail (JStr s) = true
      <-> Substring (lit "@") (trim s) /\ Substring (lit ".") (trim s)
          /\ (6 <= length (trim s))%nat).
Proof.
  unfold isLikelyEmail. cbn [withDefault String_]. rewrite trim_idem.
  split; [reflexivity|].
  rewrite !andb_true_iff, !includes_spec, Z.leb_le. split.
  - intros [[H1 H2] H3]. split; [exact H1|]. split; [exact H2|]. lia.
  - intros (H1 & H2 & H3). split; [split; assumption|]. lia.
Qed.

(** X8. The summary shown in the notification is the message itself when
    it has at most 140 code units, and otherwise its first 140 code units
    followed by an ellipsis: never more than 141 code units. *)
Theorem summaryOf_length (cleanMessage : jsstring) :
  (length (summaryOf cleanMessage) <= 141)%nat
  /\ ((length cleanMessage <= 140)%nat -> summaryOf cleanMessage = cleanMessage)
  /\ ((140 < length cleanMessage)%nat ->
      summaryOf cleanMessage = firstn 140 cleanMessage ++ [8230%N]
      /\ length (summaryOf cleanMessage) = 141%nat).
Proof.
  unfold summaryOf.
  destruct (Z.ltb_spec 140 (Z.of_nat (length cleanMessage))) as [H|H].
  - split; [|split].
    + rewrite length_app, length_firstn. cbn [length]. lia.
    + intros Hle. lia.
    + intros _. split; [reflexivity|].
      rewrite length_app, length_firstn. cbn [length]. lia.
  - split; [|split].
    + rewrite length_app, length_firstn. cbn [length]. lia.
    + intros _. rewrite app_nil_r. apply firstn_all2. lia.
    + intros Hlt. lia.
Qed.

Lemma summaryOf_length_witness :
  summaryOf (lit "Please send a quote ASAP") = lit "Please send a quote ASAP".
Proof.
  apply (proj1 (proj2 (summaryOf_length (lit "Please send a quote ASAP")))).
  vm_compute. lia.
Defined.

(** ** The handler, block by block *)

Lemma label_eqb_HIGH (l : Label) : label_eqb l HIGH = true <-> l = HIGH.
Proof. destruct l; cbn; split; congruence. Qed.

Lemma autoRespond_eq (w : World) (l : Label) (em : jsstring)
  (t : list event) :
  autoRespond w l em t = (Returns (mailOutcome w l em), t ++ mailCalls l em).
Proof.
  unfold autoRespond, mailOutcome, mailCalls.
  destruct (label_eqb l HIGH && isLikelyEmail (JStr em)).
  - unfold sendHighLeadAutoResponse. run_handler.
    destruct (sendMail w em); reflexivity.
  - unfold ret. rewrite app_nil_r. reflexivity.
Qed.

Lemma recordInNotion_eq (w : World) (l : Label) (p : NotionLead)
  (t : list event) :
  recordInNotion w l p t
  = (Returns (notionOutcome w l p), t ++ notionCalls w l p).
Proof.
  unfold recordInNotion, notionOutcome, notionCalls.
  destruct (label_eqb l HIGH).
  - unfold createNotionLeadPage.
    destruct (negb (NOTION_TOKEN w) || negb (NOTION_DATABASE_ID w)).
    + run_handler. cbn [resp_ok resp_skipped]. cbv beta.
      rewrite app_nil_r. reflexivity.
    + run_handler. destruct (pagesCreate w p).
      * cbn [resp_ok resp_page_id]. cbv beta. reflexivity.
      * rewrite <- app_assoc. reflexivity.
  - unfold ret. rewrite app_nil_r. reflexivity.
Qed.

Lemma notifySlack_eq (w : World) (msg : SlackMessage) (id : jsstring)
  (t : list event) :
  notifySlack w msg id t
  = (Returns (slackResponse w msg id), t ++ slackCalls w msg).
Proof.
  unfold notifySlack, slackResponse, slackCalls. run_handler.
  destruct (postMessage w msg).
  - reflexivity.
  - rewrite <- app_assoc. reflexivity.
Qed.

(** The whole course of an accepted request: classification, the mail if
    any, the append, and, unless the append throws, Notion if any and
    Slack. *)
Lemma handle_accepted_eq
  (lower : jsstring -> jsstring) (w : World) (body : Body) :
  accepted body ->
  handle lower w body
  = match appendFileSync w (leadOf lower w body) with
    | Throws e =>
        (Throws e,
         EvClassify (clean (message body))
         :: mailCalls
              (label (classifyLead lower (JStr (clean (message body)))))
              (clean (email body))
         ++ [EvAppendLead (leadOf lower w body)])
    | Returns _ =>
        (Returns (slackResponse w (slackMessageOf lower w body) (safeId w)),
         EvClassify (clean (message body))
         :: mailCalls
              (label (classifyLead lower (JStr (clean (message body)))))
              (clean (email body))
         ++ EvAppendLead (leadOf lower w body)
         :: notionCalls w
              (label (classifyLead lower (JStr (clean (message body)))))
              (notionLeadOf lower w body)
         ++ slackCalls w (slackMessageOf lower w body))
    end.
Proof.
  intros Hacc. pose proof (accepted_contacts body Hacc) as Hc.
  destruct Hacc as (Hh & Hm & _). apply isEmpty_false in Hm.
  unfold handle, postLead. rewrite Hh, Hm, Hc.
  unfold bind at 1. unfold classify at 1. unfold perform at 1.
  change ([] ++ [EvClassify (clean (message body))])
    with [EvClassify (clean (message body))].
  cbv zeta. unfold bind at 1. rewrite autoRespond_eq.
  unfold bind at 1. unfold appendLeadToDisk at 1. unfold perform at 1.
  fold (leadOf lower w body). fold (notionLeadOf lower w body).
  destruct (appendFileSync w (leadOf lower w body)) as [u|e0].
  - unfold bind at 1. rewrite recordInNotion_eq.
    fold (slackMessageOf lower w body).
    rewrite notifySlack_eq. f_equal.
    cbn [app]. rewrite <- !app_assoc. reflexivity.
  - f_equal.
Qed.

Lemma accepted_dec (body : Body) : accepted body \/ ~ accepted body.
Proof.
  unfold accepted.
  destruct (honeypotFilled body); [right; intros (H & _); discriminate|].
  destruct (clean (message body)); [right; intros (_ & H & _); congruence|].
  destruct (clean (email body)); [|left; repeat split; try discriminate;
                                   left; discriminate].
  destruct (clean (phone body)); [|left; repeat split; try discriminate;
                                   right; left; discriminate].
  destruct (clean (whatsapp body)); [|left; repeat split; try discriminate;
                                      right; right; discriminate].
  right. intros (_ & _ & [H | [H | H]]); congruence.
Qed.

(** A request that is not accepted is answered without any call. *)
Lemma handle_not_accepted
  (lower : jsstring -> jsstring) (w : World) (body : Body) :
  ~ accepted body ->
  exists resp,
    handle lower w body = (Returns resp, [])
    /\ (resp = RespIgnored \/ exists err, resp = RespBadRequest err).
Proof.
  intros Hn. unfold handle, postLead.
  destruct (honeypotFilled body) eqn:Hh.
  { exists RespIgnored. split; [reflexivity | left; reflexivity]. }
  destruct (isEmpty (clean (message body))) eqn:Hm.
  { eexists. split; [reflexivity | right; eexists; reflexivity]. }
  destruct (isEmpty (clean (email body)) && isEmpty (clean (phone body))
            && isEmpty (clean (whatsapp body))) eqn:Hc.
  { eexists. split; [reflexivity | right; eexists; reflexivity]. }
  exfalso. apply Hn. unfold accepted. split; [exact Hh|]. split.
  - destruct (clean (message body)); [discriminate Hm | discriminate].
  - destruct (clean (email body)); [|left; discriminate].
    destruct (clean (phone body)); [|right; left; discriminate].
    destruct (clean (whatsapp body)); [discriminate Hc|].
    right; right; discriminate.
Qed.

Lemma mailCalls_In (ev : event) (l : Label) (em : jsstring) :
  In ev (mailCalls l em)
  <-> ev = EvSendMail em /\ l = HIGH /\ isLikelyEmail (JStr em) = true.
Proof.
  unfold mailCalls. rewrite <- label_eqb_HIGH, <- andb_true_iff.
  destruct (label_eqb l HIGH && isLikelyEmail (JStr em)); cbn [In].
  - split; [intros [<- | []]; split; reflexivity | intros [-> _]; left;
                                                   reflexivity].
  - split; [tauto | intros [_ H]; discriminate H].
Qed.

Lemma notionCalls_In (ev : event) (w : World) (l : Label) (p : NotionLead) :
  In ev (notionCalls w l p)
  <-> l = HIGH /\ NOTION_TOKEN w = true /\ NOTION_DATABASE_ID w = true
      /\ (ev = EvNotionCreate p
          \/ (ev = EvConsoleError (lit "Notion write error:")
              /\ exists e, pagesCreate w p = Throws e)).
Proof.
  unfold notionCalls. rewrite <- label_eqb_HIGH.
  destruct (label_eqb l HIGH); [|split; [intros [] | intros [H _];
                                                     discriminate H]].
  destruct (NOTION_TOKEN w); cbn [negb orb];
    [|split; [intros [] | intros (_ & H & _); discriminate H]].
  destruct (NOTION_DATABASE_ID w); cbn [negb orb];
    [|split; [intros [] | intros (_ & _ & H & _); discriminate H]].
  destruct (pagesCreate w p) as [u|e]; cbn [In].
  - split.
    + intros [<- | []]. repeat split. left. reflexivity.
    + intros (_ & _ & _ & [-> | [_ [e He]]]); [left; reflexivity|].
      discriminate He.
  - split.
    + intros [<- | [<- | []]]; repeat split;
        [left; reflexivity | right; split; [reflexivity | exists e;
                                                           reflexivity]].
    + intros (_ & _ & _ & [-> | [-> _]]); [left | right; left]; reflexivity.
Qed.

Lemma slackCalls_In (ev : event) (w : World) (msg : SlackMessage) :
  In ev (slackCalls w msg)
  <-> ev = EvSlackPost msg
      \/ (ev = EvConsoleError (lit "Slack postMessage error:")
          /\ exists e, postMessage w msg = Throws e).
Proof.
  unfold slackCalls. destruct (postMessage w msg) as [u|e]; cbn [In].
  - split.
    + intros [<- | []]. left. reflexivity.
    + intros [-> | [_ [e He]]]; [left; reflexivity | discriminate He].
  - split.
    + intros [<- | [<- | []]];
        [left; reflexivity | right; split; [reflexivity | exists e;
                                                           reflexivity]].
    + intros [-> | [-> _]]; [left | right; left]; reflexivity.
Qed.

(** Every call in the trace of a request, and where it comes from. *)
Lemma handle_trace_In
  (lower : jsstring -> jsstring) (w : World) (body : Body) (ev : event) :
  In ev (snd (handle lower w body))
  <-> accepted body
      /\ (ev = EvClassify (clean (message body))
          \/ In ev (mailCalls
                      (label (classifyLead lower
                                (JStr (clean (message body)))))
                      (clean (email body)))
          \/ ev = EvAppendLead (leadOf lower w body)
          \/ ((exists u, appendFileSync w (leadOf lower w body) = Returns u)
              /\ (In ev (notionCalls w
                           (label (classifyLead lower
                                     (JStr (clean (message body)))))
                           (notionLeadOf lower w body))
                  \/ In ev (slackCalls w (slackMessageOf lower w body))))).
Proof.
  destruct (accepted_dec body) as [Hacc | Hn].
  - rewrite (handle_accepted_eq lower w body Hacc).
    destruct (appendFileSync w (leadOf lower w body)) as [u|e];
      cbn [snd]; repeat (progress (rewrite ?in_app_iff; cbn [In])).
    + split.
      * intros [<- | [H | [<- | [H | H]]]]; (split; [exact Hacc|]);
          eauto 8.
      * intros (_ & [-> | [H | [-> | (_ & [H | H])]]]); auto 6.
    + split.
      * intros [<- | [H | [<- | []]]]; (split; [exact Hacc|]); auto.
      * intros (_ & [-> | [H | [-> | ([u Hu] & _)]]]); auto;
          discriminate Hu.
  - destruct (handle_not_accepted lower w body Hn) as (resp & -> & _).
    cbn [snd In]. tauto.
Qed.

Lemma trace_classify_In
  (lower : jsstring -> jsstring) (w : World) (body : Body) (m : jsstring) :
  In (EvClassify m) (snd (handle lower w body))
  <-> accepted body /\ m = clean (message body).
Proof.
  rewrite handle_trace_In, mailCalls_In, notionCalls_In, slackCalls_In.
  split.
  - intros (Hacc & [H | [(H & _) | [H | (_ & [(_ & _ & _ & [H | (H & _)])
                                             | [H | (H & _)]])]]]);
      try discriminate H.
    inversion H. split; [exact Hacc | reflexivity].
  - intros (Hacc & ->). split; [exact Hacc | left; reflexivity].
Qed.

Lemma trace_append_In
  (lower : jsstring -> jsstring) (w : World) (body : Body) (l : Lead) :
  In (EvAppendLead l) (snd (handle lower w body))
  <-> accepted body /\ l = leadOf lower w body.
Proof.
  rewrite handle_trace_In, mailCalls_In, notionCalls_In, slackCalls_In.
  split.
  - intros (Hacc & [H | [(H & _) | [H | (_ & [(_ & _ & _ & [H | (H & _)])
                                             | [H | (H & _)]])]]]);
      try discriminate H.
    inversion H. split; [exact Hacc | reflexivity].
  - intros (Hacc & ->). split; [exact Hacc | right; right; left; reflexivity].
Qed.

Lemma trace_slack_In
  (lower : jsstring -> jsstring) (w : World) (body : Body)
  (msg : SlackMessage) :
  In (EvSlackPost msg) (snd (handle lower w body))
  <-> accepted body
      /\ (exists u, appendFileSync w (leadOf lower w body) = Returns u)
      /\ msg = slackMessageOf lower w body.
Proof.
  rewrite handle_trace_In, mailCalls_In, notionCalls_In, slackCalls_In.
  split.
  - intros (Hacc & [H | [(H & _)
                        | [H | (Hu & [(_ & _ & _ & [H | (H & _)])
                                     | [H | (H & _)]])]]]);
      try discriminate H.
    inversion H. subst. (split; [exact Hacc|]).
    repeat split; try assumption; reflexivity.
  - intros (Hacc & Hu & ->). split; [exact Hacc|].
    right. right. right. split; [exact Hu|]. right. left. reflexivity.
Qed.

(** ** Validation *)






(** ** Which calls a request makes *)


(** X12. The message is classified, and the lead appended to the log, for
    the accepted requests and no others; what is classified is the cleaned
    message, and what is appended carries that message, its
    classification, the cleaned contacts and no honeypot value. *)
Theorem classified_and_appended_iff_accepted
  (lower : jsstring -> jsstring) (w : World) (body : Body)
  (m : jsstring) (l : Lead) :
  (In (EvClassify m) (snd (handle lower w body))
   <-> accepted body /\ m = clean (message body))
  /\ (In (EvAppendLead l) (snd (handle lower w body))
      <-> accepted body
          /\ l = mkLead (safeId w) (nowISOString w)
                   (label (classifyLead lower (JStr (clean (message body)))))
                   (scores (classifyLead lower (JStr (clean (message body)))))
                   (reasons (classifyLead lower
                               (JStr (clean (message body)))))
                   (orNull (clean (email body)))
                   (orNull (clean (phone body)))
                   (orNull (clean (whatsapp body)))
                   JNull (clean (message body))).
Proof.
  split; [apply trace_classify_In | apply trace_append_In].
Qed.

(** X13. The auto-response mail is attempted exactly for the accepted
    requests that are labelled HIGH and whose cleaned email passes
    [isLikelyEmail]; it goes to that cleaned email. *)
Theorem mail_sent_iff
  (lower : jsstring -> jsstring) (w : World) (body : Body) (a : jsstring) :
  In (EvSendMail a) (snd (handle lower w body))
  <-> accepted body
      /\ label (classifyLead lower (JStr (clean (message body)))) = HIGH
      /\ isLikelyEmail (JStr (clean (email body))) = true
      /\ a = clean (email body).
Proof.
  rewrite handle_trace_In, mailCalls_In, notionCalls_In, slackCalls_In.
  split.
  - intros (Hacc & [H | [(H & H1 & H2)
                        | [H | (_ & [(_ & _ & _ & [H | (H & _)])
                                    | [H | (H & _)]])]]]);
      try discriminate H.
    inversion H. subst. (split; [exact Hacc|]).
    repeat split; try assumption; reflexivity.
  - intros (Hacc & H1 & H2 & ->). split; [exact Hacc|]. right. left.
    repeat split; assumption.
Qed.

(** X14. Notion is called exactly for the accepted requests labelled HIGH
    whose append returned, when both Notion settings are present; a LOW
    lead, a failed append or a missing token means no Notion call. *)
Theorem notion_called_iff
  (lower : jsstring -> jsstring) (w : World) (body : Body) (p : NotionLead) :
  In (EvNotionCreate p) (snd (handle lower w body))
  <-> accepted body
      /\ (exists u, appendFileSync w (leadOf lower w body) = Returns u)
      /\ label (classifyLead lower (JStr (clean (message body)))) = HIGH
      /\ NOTION_TOKEN w = true /\ NOTION_DATABASE_ID w = true
      /\ p = mkNotionLead (safeId w) (nowISOString w)
               (label (classifyLead lower (JStr (clean (message body)))))
               (scores (classifyLead lower (JStr (clean (message body)))))
               (orNull (clean (email body))) (orNull (clean (phone body)))
               (orNull (clean (whatsapp body))) (clean (message body)).
Proof.
  fold (notionLeadOf lower w body).
  rewrite handle_trace_In, mailCalls_In, notionCalls_In, slackCalls_In.
  split.
  - intros (Hacc & [H | [(H & _)
                        | [H | (Hu & [(H1 & H2 & H3 & [H | (H & _)])
                                     | [H | (H & _)]])]]]);
      try discriminate H.
    inversion H. subst. (split; [exact Hacc|]).
    repeat split; try assumption; reflexivity.
  - intros (Hacc & Hu & H1 & H2 & H3 & ->).
    fold (notionLeadOf lower w body). split; [exact Hacc|].
    right. right. right. split; [exact Hu|]. left.
    repeat split; try assumption. left. reflexivity.
Qed.

(** ** Notification and response *)

Lemma mailCalls_no_append_or_slack (l : Label) (em : jsstring) :
  existsb isAppendLead (mailCalls l em) = false
  /\ existsb isSlackPost (mailCalls l em) = false.
Proof.
  unfold mailCalls.
  destruct (label_eqb l HIGH && isLikelyEmail (JStr em)); split; reflexivity.
Qed.

Lemma notionCalls_no_append_or_slack (w : World) (l : Label)
  (p : NotionLead) :
  existsb isAppendLead (notionCalls w l p) = false
  /\ existsb isSlackPost (notionCalls w l p) = false.
Proof.
  unfold notionCalls.
  destruct (label_eqb l HIGH); [|split; reflexivity].
  destruct (negb (NOTION_TOKEN w) || negb (NOTION_DATABASE_ID w));
    [split; reflexivity|].
  destruct (pagesCreate w p); split; reflexivity.
Qed.

(** X15. Once the lead is appended the handler always answers, and the
    answer depends on Slack alone: 200 with the label, the lead id and the
    Notion status when the post succeeds; 500 with Slack's error data, or
    its message, or "Unknown error", when the post throws.  Failures of
    the mail relay or of Notion never change the status code. *)
Theorem response_follows_slack
  (lower : jsstring -> jsstring) (w : World) (body : Body) (u : unit) :
  accepted body ->
  appendFileSync w (leadOf lower w body) = Returns u ->
  In (EvSlackPost (slackMessageOf lower w body)) (snd (handle lower w body))
  /\ (forall u', postMessage w (slackMessageOf lower w body) = Returns u' ->
        fst (handle lower w body)
        = Returns
            (RespAccepted
               (label (classifyLead lower (JStr (clean (message body)))))
               (safeId w)
               (s_notionStatus (slackMessageOf lower w body))
               (s_notionPageId (slackMessageOf lower w body))))
  /\ (forall err, postMessage w (slackMessageOf lower w body) = Throws err ->
        fst (handle lower w body)
        = Returns
            (RespServerError
               (orElse (orElse (err_data err) (err_message err))
                       (JStr (lit "Unknown error")))))
  /\ (exists resp,
        fst (handle lower w body) = Returns resp
        /\ (statusCode resp = 200 \/ statusCode resp = 500)).
Proof.
  intros Hacc Happ.
  split.
  { apply trace_slack_In. split; [exact Hacc|]. split; [|reflexivity].
    exists u. exact Happ. }
  rewrite (handle_accepted_eq lower w body Hacc), Happ. cbn [fst].
  unfold slackResponse.
  split; [|split].
  - intros u' Hu. rewrite Hu. reflexivity.
  - intros err He. rewrite He. reflexivity.
  - destruct (postMessage w (slackMessageOf lower w body));
      eexists; (split; [reflexivity|]); [left | right]; reflexivity.
Qed.

Lemma response_follows_slack_witness :
  fst (handle toLowerCaseLatin1 world_slack_down body_hot)
  = Returns
      (RespServerError
         (orElse (orElse (err_data err_api) (err_message err_api))
                 (JStr (lit "Unknown error")))).
Proof.
  assert (Hacc : accepted body_hot).
  { split; [vm_compute; reflexivity|]. split; [vm_compute; discriminate|].
    left. vm_compute. discriminate. }
  exact (proj1 (proj2 (proj2
           (response_follows_slack toLowerCaseLatin1 world_slack_down
              body_hot tt Hacc eq_refl))) err_api eq_refl).
Defined.

(** X16. For an accepted request whose append returns, the trace has one
    append and one Slack post, the append coming first: the lead is on
    disk before anyone is notified.  The first call is the
    classification. *)
Theorem append_then_slack
  (lower : jsstring -> jsstring) (w : World) (body : Body) (u : unit) :
  accepted body ->
  appendFileSync w (leadOf lower w body) = Returns u ->
  exists pre mid post,
    snd (handle lower w body)
    = EvClassify (clean (message body)) :: pre
      ++ EvAppendLead (leadOf lower w body) :: mid
      ++ EvSlackPost (slackMessageOf lower w body) :: post
    /\ existsb isAppendLead (pre ++ mid ++ post) = false
    /\ existsb isSlackPost (pre ++ mid ++ post) = false.
Proof.
  intros Hacc Happ.
  rewrite (handle_accepted_eq lower w body Hacc), Happ. cbn [snd].
  exists (mailCalls (label (classifyLead lower (JStr (clean (message body)))))
            (clean (email body))),
    (notionCalls w (label (classifyLead lower (JStr (clean (message body)))))
       (notionLeadOf lower w body)),
    (match postMessage w (slackMessageOf lower w body) with
     | Returns _ => []
     | Throws _ => [EvConsoleError (lit "Slack postMessage error:")]
     end).
  split; [reflexivity|].
  rewrite !existsb_app.
  rewrite (proj1 (mailCalls_no_append_or_slack _ _)),
    (proj2 (mailCalls_no_append_or_slack _ _)),
    (proj1 (notionCalls_no_append_or_slack _ _ _)),
    (proj2 (notionCalls_no_append_or_slack _ _ _)).
  destruct (postMessage w (slackMessageOf lower w body)); split; reflexivity.
Qed.

Lemma append_then_slack_witness :
  exists pre mid post,
    snd (handle toLowerCaseLatin1 world_up body_hot)
    = EvClassify (clean (message body_hot)) :: pre
      ++ EvAppendLead (leadOf toLowerCaseLatin1 world_up body_hot) :: mid
      ++ EvSlackPost (slackMessageOf toLowerCaseLatin1 world_up body_hot)
         :: post
    /\ existsb isAppendLead (pre ++ mid ++ post) = false
    /\ existsb isSlackPost (pre ++ mid ++ post) = false.
Proof.
  apply (append_then_slack toLowerCaseLatin1 world_up body_hot tt).
  - split; [vm_compute; reflexivity|]. split; [vm_compute; discriminate|].
    left. vm_compute. discriminate.
  - reflexivity.
Defined.

(** X17. A LOW lead is only stored and reported: with the append
    returning, the calls are the classification, the append and the Slack
    post (plus the error log when the post fails); no mail, no Notion.
    The notification says "not_sent" and "skipped" and lists the low
    reasons. *)
Theorem low_lead_flow
  (lower : jsstring -> jsstring) (w : World) (body : Body) (u : unit) :
  accepted body ->
  label (classifyLead lower (JStr (clean (message body)))) = LOW ->
  appendFileSync w (leadOf lower w body) = Returns u ->
  exists msg tail,
    snd (handle lower w body)
    = [ EvClassify (clean (message body));
        EvAppendLead (leadOf lower w body);
        EvSlackPost msg ] ++ tail
    /\ (tail = []
        \/ tail = [EvConsoleError (lit "Slack postMessage error:")])
    /\ s_label msg = LOW
    /\ s_emailStatus msg = lit "not_sent" /\ s_emailError msg = JNull
    /\ s_notionStatus msg = lit "skipped" /\ s_notionPageId msg = JNull
    /\ s_reasons msg
       = low (reasons (classifyLead lower (JStr (clean (message body))))).
Proof.
  intros Hacc Hlow Happ.
  rewrite (handle_accepted_eq lower w body Hacc), Happ. cbn [snd].
  exists (slackMessageOf lower w body),
    (match postMessage w (slackMessageOf lower w body) with
     | Returns _ => []
     | Throws _ => [EvConsoleError (lit "Slack postMessage error:")]
     end).
  split.
  { unfold mailCalls, notionCalls, slackCalls. rewrite Hlow.
    cbn [label_eqb andb app]. reflexivity. }
  split.
  { destruct (postMessage w (slackMessageOf lower w body));
      [left | right]; reflexivity. }
  unfold slackMessageOf, mailOutcome, notionOutcome. cbv zeta.
  rewrite Hlow. cbn [label_eqb andb fst snd s_label s_emailStatus
                       s_emailError s_notionStatus s_notionPageId s_reasons].
  repeat split; reflexivity.
Qed.

Lemma low_lead_flow_witness :
  exists msg tail,
    snd (handle toLowerCaseLatin1 world_slack_down body_cold)
    = [ EvClassify (clean (message body_cold));
        EvAppendLead (leadOf toLowerCaseLatin1 world_slack_down body_cold);
        EvSlackPost msg ] ++ tail
    /\ (tail = []
        \/ tail = [EvConsoleError (lit "Slack postMessage error:")])
    /\ s_label msg = LOW
    /\ s_emailStatus msg = lit "not_sent" /\ s_emailError msg = JNull
    /\ s_notionStatus msg = lit "skipped" /\ s_notionPageId msg = JNull
    /\ s_reasons msg
       = low (reasons (classifyLead toLowerCaseLatin1
                         (JStr (clean (message body_cold))))).
Proof.
  apply (low_lead_flow toLowerCaseLatin1 world_slack_down body_cold tt).
  - split; [vm_compute; reflexivity|]. split; [vm_compute; discriminate|].
    left. vm_compute. discriminate.
  - vm_compute. reflexivity.
  - reflexivity.
Defined.

(** X18. Failures of the mail relay and of Notion are reported, not
    propagated.  For a HIGH lead whose append returned, a throwing relay
    gives the auto-response status "failed" with the error's message (or
    "unknown email error"), a throwing Notion gives the Notion status
    "failed" without a page id, and in both cases the notification is
    still posted and a response is still sent. *)
Theorem mail_and_notion_failures_are_reported
  (lower : jsstring -> jsstring) (w : World) (body : Body) (u : unit) :
  accepted body ->
  label (classifyLead lower (JStr (clean (message body)))) = HIGH ->
  appendFileSync w (leadOf lower w body) = Returns u ->
  exists msg,
    In (EvSlackPost msg) (snd (handle lower w body))
    /\ (exists resp, fst (handle lower w body) = Returns resp)
    /\ (forall err,
          isLikelyEmail (JStr (clean (email body))) = true ->
          sendMail w (clean (email body)) = Throws err ->
          s_emailStatus msg = lit "failed"
          /\ s_emailError msg
             = orElse (err_message err) (JStr (lit "unknown email error")))
    /\ (forall err,
          NOTION_TOKEN w = true -> NOTION_DATABASE_ID w = true ->
          pagesCreate w (notionLeadOf lower w body) = Throws err ->
          s_notionStatus msg = lit "failed" /\ s_notionPageId msg = JNull)
    /\ (NOTION_TOKEN w = false ->
        s_notionStatus msg = lit "skipped" /\ s_notionPageId msg = JNull).
Proof.
  intros Hacc Hhigh Happ. exists (slackMessageOf lower w body).
  split.
  { apply trace_slack_In. split; [exact Hacc|]. split; [|reflexivity].
    exists u. exact Happ. }
  split.
  { rewrite (handle_accepted_eq lower w body Hacc), Happ. cbn [fst].
    eexists. reflexivity. }
  unfold slackMessageOf, mailOutcome, notionOutcome. cbv zeta.
  rewrite Hhigh.
  cbn [label_eqb andb fst snd s_emailStatus s_emailError s_notionStatus
         s_notionPageId].
  split; [|split].
  - intros err Hl He. rewrite Hl, He. split; reflexivity.
  - intros err Ht Hd He. rewrite Ht, Hd, He. split; reflexivity.
  - intros Ht. rewrite Ht. split; reflexivity.
Qed.

Lemma mail_and_notion_failures_are_reported_witness :
  exists msg,
    In (EvSlackPost msg)
       (snd (handle toLowerCaseLatin1 world_mail_and_notion_down body_hot))
    /\ s_emailStatus msg = lit "failed"
    /\ s_emailError msg = JStr (lit "connect ECONNREFUSED")
    /\ s_notionStatus msg = lit "failed" /\ s_notionPageId msg = JNull.
Proof.
  assert (Hacc : accepted body_hot).
  { split; [vm_compute; reflexivity|]. split; [vm_compute; discriminate|].
    left. vm_compute. discriminate. }
  assert (Hhigh : label (classifyLead toLowerCaseLatin1
                           (JStr (clean (message body_hot)))) = HIGH)
    by (vm_compute; reflexivity).
  destruct (mail_and_notion_failures_are_reported toLowerCaseLatin1
              world_mail_and_notion_down body_hot tt Hacc Hhigh eq_refl)
    as (msg & Hin & _ & Hmail & Hnotion & _).
  exists msg. split; [exact Hin|].
  destruct (Hmail err_smtp ltac:(vm_compute; reflexivity) eq_refl)
    as [H1 H2].
  destruct (Hnotion err_api eq_refl eq_refl eq_refl) as [H3 H4].
  repeat split; assumption.
Defined.

Lemma Returns_inj {A : Type} (x y : A) : Returns x = Returns y -> x = y.
Proof. intros H. injection H as H. exact H. Qed.

Lemma RespAccepted_inj (l l' : Label) (i i' s s' : jsstring) (p p' : jsval) :
  Returns (RespAccepted l i s p) = Returns (RespAccepted l' i' s' p') ->
  l = l' /\ i = i' /\ s = s' /\ p = p'.
Proof. intros H. injection H as H1 H2 H3 H4. repeat split; assumption. Qed.

(** X19. What is stored, what is posted and what is answered agree: the
    record appended and the Slack notification of one request carry the
    same label, scores and message, the label is the classifier's label of
    that message, and a 200 response names the same label and the id of
    the stored record. *)
Theorem record_notification_response_agree
  (lower : jsstring -> jsstring) (w : World) (body : Body)
  (l : Lead) (msg : SlackMessage) :
  In (EvAppendLead l) (snd (handle lower w body)) ->
  In (EvSlackPost msg) (snd (handle lower w body)) ->
  lead_label l = s_label msg
  /\ lead_scores l = s_scores msg
  /\ lead_message l = s_message msg
  /\ lead_label l = label (classifyLead lower (JStr (lead_message l)))
  /\ (forall lb id st pg,
        fst (handle lower w body) = Returns (RespAccepted lb id st pg) ->
        lb = lead_label l /\ id = lead_id l
        /\ st = s_notionStatus msg /\ pg = s_notionPageId msg).
Proof.
  intros Hl Hmsg.
  apply trace_append_In in Hl. destruct Hl as (Hacc & ->).
  apply trace_slack_In in Hmsg. destruct Hmsg as (_ & [u Happ] & ->).
  assert (Hresp : forall lb id st pg,
             fst (handle lower w body) = Returns (RespAccepted lb id st pg) ->
             lb = s_label (slackMessageOf lower w body)
             /\ id = safeId w
             /\ st = s_notionStatus (slackMessageOf lower w body)
             /\ pg = s_notionPageId (slackMessageOf lower w body)).
  { intros lb id st pg. rewrite (handle_accepted_eq lower w body Hacc), Happ.
    cbn [fst]. unfold slackResponse.
    destruct (postMessage w (slackMessageOf lower w body)) as [u'|err];
      intros H.
    - apply RespAccepted_inj in H. destruct H as (<- & <- & <- & <-).
      repeat split; reflexivity.
    - apply Returns_inj in H. discriminate H. }
  assert (E1 : lead_label (leadOf lower w body)
               = s_label (slackMessageOf lower w body)) by reflexivity.
  assert (E2 : lead_scores (leadOf lower w body)
               = s_scores (slackMessageOf lower w body)) by reflexivity.
  assert (E3 : lead_message (leadOf lower w body)
               = s_message (slackMessageOf lower w body)) by reflexivity.
  assert (E4 : lead_label (leadOf lower w body)
               = label (classifyLead lower
                          (JStr (lead_message (leadOf lower w body)))))
    by reflexivity.
  assert (E5 : lead_id (leadOf lower w body) = safeId w) by reflexivity.
  split; [exact E1|]. split; [exact E2|]. split; [exact E3|].
  split; [exact E4|].
  intros lb id st pg H. destruct (Hresp lb id st pg H) as (-> & -> & -> & ->).
  rewrite E1, E5. repeat split; reflexivity.
Qed.

Lemma record_notification_response_agree_witness :
  lead_label (leadOf toLowerCaseLatin1 world_up body_hot)
  = s_label (slackMessageOf toLowerCaseLatin1 world_up body_hot).
Proof.
  assert (Hacc : accepted body_hot).
  { split; [vm_compute; reflexivity|]. split; [vm_compute; discriminate|].
    left. vm_compute. discriminate. }
  exact (proj1 (record_notification_response_agree toLowerCaseLatin1
                  world_up body_hot _ _
                  (proj2 (trace_append_In toLowerCaseLatin1 world_up
                            body_hot _) (conj Hacc eq_refl))
                  (proj2 (trace_slack_In toLowerCaseLatin1 world_up
                            body_hot _)
                     (conj Hacc (conj (ex_intro _ tt eq_refl) eq_refl))))).
Defined.

Lemma orNull_cases (s : jsstring) :
  (s = [] /\ orNull s = JNull) \/ (s <> [] /\ orNull s = JStr s).
Proof.
  destruct s as [|c s]; [left | right]; split;
    try reflexivity; discriminate.
Qed.

(** X20. Every record that reaches the lead log has a message that is not
    empty and not padded with white space, at least one contact that is
    not [null], no empty-string contact (an absent contact is stored as
    [null]), and [null] for the honeypot. *)
Theorem stored_lead_is_well_formed
  (lower : jsstring -> jsstring) (w : World) (body : Body) (l : Lead) :
  In (EvAppendLead l) (snd (handle lower w body)) ->
  lead_message l <> []
  /\ trim (lead_message l) = lead_message l
  /\ (lead_email l <> JNull \/ lead_phone l <> JNull
      \/ lead_whatsapp l <> JNull)
  /\ lead_email l <> JStr [] /\ lead_phone l <> JStr []
  /\ lead_whatsapp l <> JStr []
  /\ lead_company_website l = JNull.
Proof.
  intros Hl. apply trace_append_In in Hl.
  destruct Hl as ((_ & Hm & Hc) & ->).
  unfold leadOf. cbv zeta.
  cbn [lead_message lead_email lead_phone lead_whatsapp
         lead_company_website].
  split; [exact Hm|]. split; [apply trim_idem|]. split.
  - destruct Hc as [H | [H | H]]; [left | right; left | right; right];
      match goal with
      | |- orNull ?s <> _ =>
          destruct (orNull_cases s) as [[E _] | [_ ->]];
            [congruence | discriminate]
      end.
  - repeat split;
      match goal with
      | |- orNull ?s <> _ =>
          destruct (orNull_cases s) as [[_ ->] | [E ->]];
            [discriminate | congruence]
      | |- _ = _ => reflexivity
      end.
Qed.

Lemma stored_lead_is_well_formed_witness :
  lead_message (leadOf toLowerCaseLatin1 world_up body_cold)
  = lit "just curious, maybe later"
  /\ lead_phone (leadOf toLowerCaseLatin1 world_up body_cold) = JNull
  /\ lead_message (leadOf toLowerCaseLatin1 world_up body_cold) <> [].
Proof.
  split; [vm_compute; reflexivity|]. split; [vm_compute; reflexivity|].
  assert (Hacc : accepted body_cold).
  { split; [vm_compute; reflexivity|]. split; [vm_compute; discriminate|].
    left. vm_compute. discriminate. }
  exact (proj1 (stored_lead_is_well_formed toLowerCaseLatin1 world_up
                  body_cold _
                  (proj2 (trace_append_In toLowerCaseLatin1 world_up
                            body_cold _) (conj Hacc eq_refl)))).
Defined.

(** ** The Notion page and the reasons line *)

Lemma orNull_truthy (s : jsstring) :
  truthy (orNull s) = negb (isEmpty s).
Proof. destruct s; reflexivity. Qed.

(** X21. The page sent to Notion for a lead has the eight fixed properties
    and, beyond them, exactly the contacts that were given: "Email",
    "Phone" or "WhatsApp" is present if and only if the cleaned field is
    not empty.  No property name occurs twice. *)
Theorem notion_page_contacts
  (lower : jsstring -> jsstring) (w : World) (body : Body) (p : NotionLead) :
  In (EvNotionCreate p) (snd (handle lower w body)) ->
  firstn 8 (map fst (notionProperties p))
  = [ "Name"; "Lead ID"; "Label"; "Created At"; "Message";
      "Score (net)"; "Score (High)"; "Score (Low)" ]%string
  /\ (In "Email"%string (map fst (notionProperties p))
      <-> clean (email body) <> [])
  /\ (In "Phone"%string (map fst (notionProperties p))
      <-> clean (phone body) <> [])
  /\ (In "WhatsApp"%string (map fst (notionProperties p))
      <-> clean (whatsapp body) <> [])
  /\ NoDup (map fst (notionProperties p)).
Proof.
  intros Hin. apply handle_trace_In in Hin. destruct Hin as (_ & Hin).
  rewrite mailCalls_In, notionCalls_In, slackCalls_In in Hin.
  assert (Hp : p = notionLeadOf lower w body).
  { destruct Hin as [H | [(H & _)
                         | [H | (_ & [(_ & _ & _ & [H | (H & _)])
                                     | [H | (H & _)]])]]];
      try discriminate H.
    injection H as H. exact H. }
  subst p. clear Hin.
  unfold notionProperties, notionLeadOf. cbv zeta.
  cbn [n_email n_phone n_whatsapp n_lead_id n_label n_created_at n_message
         n_scores].
  rewrite !orNull_truthy.
  destruct (clean (email body)) as [|c1 s1];
    destruct (clean (phone body)) as [|c2 s2];
    destruct (clean (whatsapp body)) as [|c3 s3];
    cbn [isEmpty negb app map fst firstn In];
    (split; [reflexivity|]);
    (split; [split; [intros H; repeat (destruct H as [H | H];
                                       [discriminate H|]);
                     try contradiction; try discriminate
                    | intros H; try congruence; tauto]|]);
    (split; [split; [intros H; repeat (destruct H as [H | H];
                                       [discriminate H|]);
                     try contradiction; try discriminate
                    | intros H; try congruence; tauto]|]);
    (split; [split; [intros H; repeat (destruct H as [H | H];
                                       [discriminate H|]);
                     try contradiction; try discriminate
                    | intros H; try congruence; tauto]|]);
    repeat (constructor;
            [cbn [In]; intros H;
             repeat (destruct H as [H | H]; [discriminate H|]);
             contradiction|]);
    constructor.
Qed.

Lemma notion_page_contacts_witness :
  In "Email"%string
     (map fst (notionProperties (notionLeadOf toLowerCaseLatin1 world_up
                                   body_hot)))
  <-> clean (email body_hot) <> [].
Proof.
  assert (Hacc : accepted body_hot).
  { split; [vm_compute; reflexivity|]. split; [vm_compute; discriminate|].
    left. vm_compute. discriminate. }
  assert (Hin : In (EvNotionCreate (notionLeadOf toLowerCaseLatin1 world_up
                                      body_hot))
                  (snd (handle toLowerCaseLatin1 world_up body_hot))).
  { apply handle_trace_In. split; [exact Hacc|]. right. right. right.
    split; [exists tt; reflexivity|]. left. apply notionCalls_In.
    split; [vm_compute; reflexivity|]. split; [reflexivity|].
    split; [reflexivity|]. left. reflexivity. }
  exact (proj1 (proj2 (notion_page_contacts toLowerCaseLatin1 world_up
                         body_hot _ Hin))).
Defined.

Lemma join_nil_inv (sep : jsstring) (parts : list jsstring) :
  join sep parts = [] -> forall x, In x parts -> x = [].
Proof.
  induction parts as [|x rest IH]; intros H y Hy; [contradiction|].
  destruct rest as [|x' rest'].
  - cbn [join] in H. destruct Hy as [<- | []]. exact H.
  - change (join sep (x :: x' :: rest'))
      with (x ++ sep ++ join sep (x' :: rest')) in H.
    apply app_eq_nil in H. destruct H as [Hx H].
    apply app_eq_nil in H. destruct H as [_ H].
    destruct Hy as [<- | Hy]; [exact Hx | exact (IH H y Hy)].
Qed.

Lemma renderHigh_not_empty (s : SignalRule) : renderHigh s <> [].
Proof.
  unfold renderHigh. intros H.
  apply app_eq_nil in H. destruct H as [_ H].
  apply app_eq_nil in H. destruct H as [H _]. discriminate H.
Qed.

(** X22. The reasons line of the notification is never empty.  For a
    HIGH lead it is the comma-separated list of the high reasons, of
    which there is at least one, so "No keyword match" can only be shown
    for a LOW lead; it is shown when the lead has no low reason. *)
Theorem reasons_line_of_HIGH (lower : jsstring -> jsstring) (raw : jsval) :
  reasonsLine (high (reasons (classifyLead lower raw))) <> []
  /\ reasonsLine (low (reasons (classifyLead lower raw))) <> []
  /\ (label (classifyLead lower raw) = HIGH ->
      high (reasons (classifyLead lower raw)) <> []
      /\ reasonsLine (high (reasons (classifyLead lower raw)))
         = join (lit ", ") (high (reasons (classifyLead lower raw))))
  /\ (low (reasons (classifyLead lower raw)) = [] ->
      reasonsLine (low (reasons (classifyLead lower raw)))
      = lit "No keyword match").
Proof.
  assert (Hline : forall shown,
             (join (lit ", ") shown = []
              /\ reasonsLine shown = lit "No keyword match")
             \/ (join (lit ", ") shown <> []
                 /\ reasonsLine shown = join (lit ", ") shown)).
  { intros shown. unfold reasonsLine, orElse. cbn [truthy].
    destruct (join (lit ", ") shown) as [|c t];
      [left; split; reflexivity | right; split; [discriminate|reflexivity]]. }
  assert (Hjoin : join (lit ", ") (high (reasons (classifyLead lower raw)))
                  = [] ->
                  high (reasons (classifyLead lower raw)) = []).
  { open_classifier. intros H.
    destruct (matched (normalize lower raw) highSignals) as [|s ms];
      [reflexivity|].
    exfalso. apply (renderHigh_not_empty s).
    apply (join_nil_inv _ _ H). left. reflexivity. }
  split; [|split; [|split]].
  - destruct (Hline (high (reasons (classifyLead lower raw))))
      as [[_ ->] | [H ->]]; [discriminate | exact H].
  - destruct (Hline (low (reasons (classifyLead lower raw))))
      as [[_ ->] | [H ->]]; [discriminate | exact H].
  - intros Hhigh.
    assert (Hne : high (reasons (classifyLead lower raw)) <> []).
    { apply label_HIGH_gate in Hhigh.
      destruct Hhigh as (_ & Hint & _).
      apply some_included_spec in Hint. destruct Hint as (k & Hk & Hsub).
      pose proof (intentSignals_are_high_keys k Hk) as Hkey.
      apply in_map_iff in Hkey. destruct Hkey as [s [Hs Hin]].
      assert (Hm : In s (matched (normalize lower raw) highSignals)).
      { apply matched_In. split; [exact Hin|].
        rewrite Hs. apply includes_spec. exact Hsub. }
      open_classifier. intros E. apply map_eq_nil in E.
      rewrite E in Hm. exact Hm. }
    split; [exact Hne|].
    destruct (Hline (high (reasons (classifyLead lower raw))))
      as [[H _] | [_ H]]; [|exact H].
    exfalso. exact (Hne (Hjoin H)).
  - intros ->. reflexivity.
Qed.

Lemma reasons_line_of_HIGH_witness :
  high (reasons (classifyLead toLowerCaseLatin1 msg_scenario1)) <> []
  /\ reasonsLine (high (reasons (classifyLead toLowerCaseLatin1
                                   msg_scenario1)))
     = join (lit ", ")
         (high (reasons (classifyLead toLowerCaseLatin1 msg_scenario1))).
Proof.
  assert (H : label (classifyLead toLowerCaseLatin1 msg_scenario1) = HIGH)
    by (vm_compute; reflexivity).
  exact (proj1 (proj2 (proj2 (reasons_line_of_HIGH toLowerCaseLatin1
                                msg_scenario1))) H).
Defined.
